(** * TradingClient: a shallow embedding of [src/tradingClient.js]

    The client keeps four in-memory maps (markets, balances, positions,
    orders), fills them from chain reads, mutates them after chain writes
    and merges push messages into them.  Everything the client does not
    own (the wallet, the contracts, the HTTP endpoint, the clock) is an
    explicit input of the functions below; the maps are threaded through
    as a state record. *)

From Stdlib Require Import ZArith String Ascii List Lia SpecFloat.
From stdpp Require Import base gmap strings list fin_maps pretty.

Open Scope string_scope.
Open Scope Z_scope.

(** ** JavaScript numbers

    A JS [Number] is an IEEE-754 binary64 value.  The Standard Library's
    [SpecFloat] gives the format and its correctly rounded operations as
    plain functions; binary64 is precision 53 with infinities at exponent
    1024. *)
Module Number.

Definition prec : Z := 53.
Definition emax : Z := 1024.

Definition number : Type := spec_float.

(** The Number holding the integer [z] (rounded when [z] has more than
    53 significant bits). *)
Definition of_Z (z : Z) : number := binary_normalize prec emax z 0 false.

(** [x / y] and [x * y] *)
Definition div (x y : number) : number := SFdiv prec emax x y.
Definition mul (x y : number) : number := SFmul prec emax x y.

(** [x === y] on two Numbers *)
Definition strict_eq (x y : number) : bool := SFeqb x y.

(** [Math.round(x)]: the integer nearest to [x], ties towards
    +Infinity; NaN, the infinities and the zeros are returned as they
    are, and a result that rounds to zero keeps the sign of [x]. *)
Definition Math_round (x : number) : number :=
  match x with
  | S754_finite s m e =>
      if 0 <=? e then x
      else
        let v := if s then Z.neg m else Z.pos m in
        (* floor (v * 2^e + 1/2) with e < 0 *)
        let n := (2 * v + 2 ^ (- e)) / 2 ^ (- e + 1) in
        binary_normalize prec emax n 0 s
  | _ => x
  end.

(** [N / D] lies where the rounding record says: at [m], between [m] and
    [m + 1/2], at [m + 1/2], or between [m + 1/2] and [m + 1]. *)
Definition bracket (N D : Z) (mrs : shr_record) : Prop :=
  0 < D ∧ 0 ≤ shr_m mrs ∧
  match shr_r mrs, shr_s mrs with
  | false, false => N = shr_m mrs * D
  | false, true => shr_m mrs * D < N ∧ 2 * N < (2 * shr_m mrs + 1) * D
  | true, false => 2 * N = (2 * shr_m mrs + 1) * D
  | true, true => (2 * shr_m mrs + 1) * D < 2 * N ∧ N < (shr_m mrs + 1) * D
  end.
End Number.

Import Number.

(** ** JavaScript values and objects

    Field values are the primitives that the client reads and writes:
    [undefined], [null], booleans, Numbers and strings.  A plain object is
    a finite map from property names to values; [Map] keys are values
    compared with SameValueZero. *)
Inductive Val : Type :=
  | VUndef
  | VNull
  | VBool (b : bool)
  | VNum (x : number)
  | VStr (s : string).

#[global] Instance spec_float_eq_dec : EqDecision spec_float.
Proof. solve_decision. Defined.

#[global] Instance Val_eq_dec : EqDecision Val.
Proof. solve_decision. Defined.

Definition spec_float_code (x : spec_float) : bool + bool + unit + bool * positive * Z :=
  match x with
  | S754_zero s => inl (inl (inl s))
  | S754_infinity s => inl (inl (inr s))
  | S754_nan => inl (inr tt)
  | S754_finite s m e => inr (s, m, e)
  end.

Definition spec_float_decode (c : bool + bool + unit + bool * positive * Z) : spec_float :=
  match c with
  | inl (inl (inl s)) => S754_zero s
  | inl (inl (inr s)) => S754_infinity s
  | inl (inr _) => S754_nan
  | inr (s, m, e) => S754_finite s m e
  end.

#[global] Program Instance spec_float_countable : Countable spec_float :=
  inj_countable' spec_float_code spec_float_decode _.
Next Obligation. by intros []. Qed.

Definition Val_code (v : Val) : unit + unit + bool + spec_float + string :=
  match v with
  | VUndef => inl (inl (inl (inl tt)))
  | VNull => inl (inl (inl (inr tt)))
  | VBool b => inl (inl (inr b))
  | VNum x => inl (inr x)
  | VStr s => inr s
  end.

Definition Val_decode (c : unit + unit + bool + spec_float + string) : Val :=
  match c with
  | inl (inl (inl (inl _))) => VUndef
  | inl (inl (inl (inr _))) => VNull
  | inl (inl (inr b)) => VBool b
  | inl (inr x) => VNum x
  | inr s => VStr s
  end.

#[global] Program Instance Val_countable : Countable Val :=
  inj_countable' Val_code Val_decode _.
Next Obligation. by intros []. Qed.

(** A plain object: own properties only. *)
Abbreviation Obj := (gmap string Val).

(** [o.f]: a missing property reads as [undefined]. *)
Definition prop (o : Obj) (f : string) : Val := default VUndef (o !! f).

(** [{...a, ...b}]: the properties of [a], overridden by those of [b];
    spreading [undefined] contributes nothing. *)
Definition spread (a : option Obj) (b : Obj) : Obj := b ∪ default ∅ a.

(** ToBoolean *)
Definition truthy (v : Val) : bool :=
  match v with
  | VUndef | VNull => false
  | VBool b => b
  | VNum (S754_zero _) | VNum S754_nan => false
  | VNum _ => true
  | VStr s => negb (String.eqb s "")
  end.

(** *** [Map]

    [Map.prototype.set] and [get] compare keys with SameValueZero, which
    differs from identity of primitives only in that [-0] is [+0]. *)
Abbreviation JSMap := (gmap Val Obj).

Definition mapKey (k : Val) : Val :=
  match k with
  | VNum (S754_zero true) => VNum (S754_zero false)
  | _ => k
  end.

Definition Map_get (m : JSMap) (k : Val) : option Obj := m !! mapKey k.
Definition Map_set (m : JSMap) (k : Val) (o : Obj) : JSMap := <[mapKey k := o]> m.

(** [Array.from(m.values())]; the entries come in the order of the finite
    map, not in insertion order. *)
Definition Map_values (m : JSMap) : list Obj := (map_to_list m).*2.

(** ** Results of calls that may throw *)
Inductive Result (A : Type) : Type :=
  | Ok (a : A)
  | Throw (message : string).
Arguments Ok {A} a.
Arguments Throw {A} message.

Definition rbind {A B} (r : Result A) (k : A → Result B) : Result B :=
  match r with
  | Ok a => k a
  | Throw msg => Throw msg
  end.

Notation "'let?' x := r 'in' k" := (rbind r (fun x => k))
  (at level 10, x name, r at level 100, k at level 200).

(** ** Decimal strings: the [ethers.utils] conversions

    [parseUnits] and [formatUnits] belong to the ethers library (v5), not
    to this repository; they are modelled after the library's [parseFixed]
    and [formatFixed], with the library's long error messages shortened to
    their first phrase. *)
Module ethers.

Definition is_digit (c : ascii) : bool :=
  let n := N_of_ascii c in ((48 <=? n) && (n <=? 57))%N.

Definition digit_val (c : ascii) : Z := Z.of_N (N_of_ascii c) - 48.

(** the value of a string of decimal digits *)
Definition digits_val (l : list ascii) : Z :=
  fold_left (fun acc c => 10 * acc + digit_val c) l 0.

Definition dot : ascii := "."%char.
Definition zero : ascii := "0"%char.
Definition minus : ascii := "-"%char.

(** [s.split(".")] *)
Fixpoint split_dots (l : list ascii) : list (list ascii) :=
  match l with
  | [] => [[]]
  | c :: l' =>
      if Ascii.eqb c dot then [] :: split_dots l'
      else match split_dots l' with
           | comp :: comps => (c :: comp) :: comps
           | [] => [[c]]
           end
  end.

Fixpoint drop_leading_zeros (l : list ascii) : list ascii :=
  match l with
  | c :: l' => if Ascii.eqb c zero then drop_leading_zeros l' else l
  | [] => []
  end.

(** [while (fraction[fraction.length - 1] === "0") fraction = fraction.substring(0, fraction.length - 1)] *)
Definition trim_trailing_zeros (l : list ascii) : list ascii :=
  rev (drop_leading_zeros (rev l)).

(** [while (fraction.length < decimals) fraction += "0"] *)
Definition pad_right (decimals : nat) (l : list ascii) : list ascii :=
  l ++ repeat zero (decimals - length l)%nat.

(** [while (fraction.length < decimals) fraction = "0" + fraction] *)
Definition pad_left (decimals : nat) (l : list ascii) : list ascii :=
  repeat zero (decimals - length l)%nat ++ l.

(** [parseFixed(value, decimals)] for a string [value]:
    the pattern [/^-?[0-9.]+$/], one optional sign, at most one dot, at most
    [decimals] significant fractional digits. *)
Definition parseFixed (value : string) (decimals : nat) : Result Z :=
  let chars := list_ascii_of_string value in
  let negative := match chars with c :: _ => Ascii.eqb c minus | [] => false end in
  let body := if negative then tl chars else chars in
  if negb (forallb (fun c => is_digit c || Ascii.eqb c dot) body) || (length body =? 0)%nat
  then Throw "invalid decimal value"
  else if (length body =? 1)%nat && forallb (Ascii.eqb dot) body
  then Throw "missing value"
  else
    let comps := split_dots body in
    if (2 <? length comps)%nat then Throw "too many decimal points"
    else
      let whole := match nth 0 comps [] with [] => [zero] | w => w end in
      let fraction := match nth 1 comps [] with [] => [zero] | f => f end in
      let fraction := trim_trailing_zeros fraction in
      if (decimals <? length fraction)%nat
      then Throw "fractional component exceeds decimals"
      else
        let fraction := match fraction with [] => [zero] | f => f end in
        let fraction := pad_right decimals fraction in
        let wei := digits_val whole * 10 ^ Z.of_nat decimals + digits_val fraction in
        Ok (if negative then - wei else wei).

(** [ethers.utils.parseUnits(value, decimals)] *)
Definition parseUnits (value : Val) (decimals : nat) : Result Z :=
  match value with
  | VStr s => parseFixed s decimals
  | _ => Throw "value must be a string"
  end.

(** [ethers.utils.formatUnits(value, decimals)] on a big integer: the whole
    part, a dot and the fraction without its trailing zeros (at least one
    digit); no dot when [decimals] is 0. *)
Definition formatUnits (value : Z) (decimals : nat) : string :=
  let multiplier := 10 ^ Z.of_nat decimals in
  let negative := value <? 0 in
  let value := Z.abs value in
  let fraction := list_ascii_of_string (pretty (value mod multiplier)) in
  let fraction := pad_left decimals fraction in
  let fraction := match trim_trailing_zeros fraction with [] => [zero] | f => f end in
  let whole := pretty (value / multiplier) in
  let text := if (decimals =? 0)%nat then whole
              else whole +:+ "." +:+ string_of_list_ascii fraction in
  if negative then "-" +:+ text else text.

End ethers.

(** ** The client *)
Module TradingClient.

(** *** Enumeration helpers *)

(** [x || d] on Numbers holding integers: [0] is falsy. *)
Definition or_default (x : option Z) (d : Z) : Z :=
  match x with
  | Some v => if v =? 0 then d else v
  | None => d
  end.

(** The two name tables are object literals: [table[name]] also finds
    the properties that every object inherits from [Object.prototype],
    which are functions (an object for [__proto__]) and truthy.  These are
    their names; the two lookups below are the code's on every other
    name. *)
Definition Object_prototype_names : list string :=
  ["constructor"; "hasOwnProperty"; "isPrototypeOf"; "propertyIsEnumerable";
   "toLocaleString"; "toString"; "valueOf"; "__proto__";
   "__defineGetter__"; "__defineSetter__"; "__lookupGetter__"; "__lookupSetter__"].

Definition typeMap : gmap string Z :=
  list_to_map [("market", 0); ("limit", 1); ("stop", 2); ("stopLimit", 3); ("trailingStop", 4)].

(** [getOrderTypeId(typeName)]: [typeMap[typeName] || 1], for a name that
    is not in [Object_prototype_names]. *)
Definition getOrderTypeId (typeName : string) : Z :=
  or_default (typeMap !! typeName) 1.

Definition typeNames : list string :=
  ["market"; "limit"; "stop"; "stopLimit"; "trailingStop"].

(** [a[i]] for an integer index: [undefined] outside the array. *)
Definition index {A} (a : list A) (i : Z) : option A :=
  if 0 <=? i then a !! Z.to_nat i else None.

(** [getOrderTypeName(typeId)]: [typeNames[typeId] || 'unknown'] *)
Definition getOrderTypeName (typeId : Z) : string :=
  default "unknown" (index typeNames typeId).

Definition timeInForceMap : gmap string Z :=
  list_to_map [("GTC", 0); ("IOC", 1); ("FOK", 2); ("GTD", 3)].

(** [getTimeInForceId(name)]: [map[name] || 0], for a name that is not in
    [Object_prototype_names]. *)
Definition getTimeInForceId (name : string) : Z :=
  or_default (timeInForceMap !! name) 0.

Definition statusNames : list string :=
  ["open"; "filled"; "canceled"; "expired"; "rejected"].

(** [getOrderStatusName(statusId)]: [statusNames[statusId] || 'unknown'] *)
Definition getOrderStatusName (statusId : Z) : string :=
  default "unknown" (index statusNames statusId).

(** *** State *)

(** The wallet is an external object; the client only tests whether one is
    bound and asks it for its address. *)
Record Wallet : Type := { getAddress : Result string }.

Record Client : Type := {
  network : string;
  wallet : option Wallet;
  positions : JSMap;
  orders : JSMap;
  balances : JSMap;
  markets : JSMap
}.

Definition set_positions (m : JSMap) (c : Client) : Client :=
  {| network := network c; wallet := wallet c; positions := m;
     orders := orders c; balances := balances c; markets := markets c |}.
Definition set_orders (m : JSMap) (c : Client) : Client :=
  {| network := network c; wallet := wallet c; positions := positions c;
     orders := m; balances := balances c; markets := markets c |}.
Definition set_balances (m : JSMap) (c : Client) : Client :=
  {| network := network c; wallet := wallet c; positions := positions c;
     orders := orders c; balances := m; markets := markets c |}.
Definition set_markets (m : JSMap) (c : Client) : Client :=
  {| network := network c; wallet := wallet c; positions := positions c;
     orders := orders c; balances := balances c; markets := m |}.

(** the state right after the constructor's assignments;
    [config.network || 'arbitrum'] takes the default for an absent and for
    an empty name *)
Definition new_client (net : option string) (w : option Wallet) : Client :=
  {| network := match net with
                | Some n => if String.eqb n "" then "arbitrum" else n
                | None => "arbitrum"
                end;
     wallet := w; positions := ∅;
     orders := ∅; balances := ∅; markets := ∅ |}.

(** [['ethereum', 'arbitrum', 'optimism', 'bnb'].includes(this.network)] *)
Definition isEVM (c : Client) : bool :=
  bool_decide (network c ∈ ["ethereum"; "arbitrum"; "optimism"; "bnb"]).

Definition isSolana (c : Client) : bool := String.eqb (network c) "solana".

(** *** Local merges of push data *)

(** [updateOrder(orderData)] *)
Definition updateOrder (orderData : Obj) (c : Client) : Client :=
  let id := prop orderData "id" in
  set_orders (Map_set (orders c) id (spread (Map_get (orders c) id) orderData)) c.

(** [updatePosition(positionData)] *)
Definition updatePosition (positionData : Obj) (c : Client) : Client :=
  let id := prop positionData "id" in
  set_positions (Map_set (positions c) id (spread (Map_get (positions c) id) positionData)) c.

(** [updateBalance(balanceData)] *)
Definition updateBalance (balanceData : Obj) (c : Client) : Client :=
  let token := prop balanceData "token" in
  set_balances (Map_set (balances c) token (spread (Map_get (balances c) token) balanceData)) c.

(** [updateMarket(marketData)] *)
Definition updateMarket (marketData : Obj) (c : Client) : Client :=
  let symbol := prop marketData "symbol" in
  set_markets (Map_set (markets c) symbol (spread (Map_get (markets c) symbol) marketData)) c.

(** A decoded push envelope [{type, data}] whose [data] is an object. *)
Record Message : Type := { msg_type : string; msg_data : Obj }.

(** [handleWebSocketMessage(message)] *)
Definition handleWebSocketMessage (message : Message) (c : Client) : Client :=
  if String.eqb (msg_type message) "order_update" then updateOrder (msg_data message) c
  else if String.eqb (msg_type message) "position_update" then updatePosition (msg_data message) c
  else if String.eqb (msg_type message) "balance_update" then updateBalance (msg_data message) c
  else if String.eqb (msg_type message) "market_update" then updateMarket (msg_data message) c
  else c.

(** *** The outside world

    What the contracts, the wallet and the HTTP endpoint answer is an input
    of the model.  A rejected promise or a thrown exception is [Throw]. *)

(** one log of a receipt after [interface.parseLog]: the event name and
    [args.orderId.toString()] *)
Record ParsedLog : Type := { ev_name : string; ev_orderId : string }.

(** A state-changing call followed by [tx.wait()] (and, for order creation,
    by [getTransactionReceipt]): it fails at some step with a message, or it
    is confirmed with the transaction hash and the receipt's logs, a log
    that [parseLog] cannot decode being [None]. *)
Inductive TxOutcome : Type :=
  | TxFailed (message : string)
  | TxConfirmed (hash : string) (logs : list (option ParsedLog)).

Record RawBalance : Type := { raw_free : Z; raw_locked : Z; raw_total : Z }.

Record RawPosition : Type := {
  pos_id : Val; pos_market : Val; pos_side : Z; pos_size : Z;
  pos_leverage : number; pos_entryPrice : Z; pos_liquidationPrice : Z;
  pos_margin : Z; pos_unrealizedPnl : Z; pos_unrealizedPnlPercentage : number
}.

Record RawOrder : Type := {
  ord_id : Val; ord_market : Val; ord_side : Z; ord_orderType : Z;
  ord_price : Z; ord_amount : Z; ord_filled : Z; ord_status : Z;
  ord_timestamp : Z
}.

(** the [orderParams] object handed to the exchange contract *)
Record OrderRequest : Type := {
  req_market : Val; req_side : Z; req_orderType : Z; req_price : Z;
  req_amount : Z; req_leverage : number; req_reduceOnly : bool;
  req_timeInForce : Z; req_stopPrice : Z; req_clientOrderId : string
}.

Record Chain : Type := {
  http_markets : Result (list Obj);
  vault_getUserTokens : string → Result (list Val);
  vault_getBalance : string → Val → Result RawBalance;
  margin_getUserPositions : string → Result (list RawPosition);
  exchange_getUserOrders : string → Result (list RawOrder);
  exchange_createOrder : OrderRequest → TxOutcome;
  exchange_cancelOrder : Val → TxOutcome;
  margin_updatePositionLeverage : Val → number → TxOutcome
}.

Definition is_ok {A} (r : Result A) : bool :=
  match r with Ok _ => true | Throw _ => false end.

(** [BigNumber.prototype.toNumber()]: throws outside the 53 bits that a
    Number stores exactly. *)
Definition toNumber (z : Z) : Result number :=
  if Z.abs z <? 2 ^ 53 then Ok (of_Z z) else Throw "overflow".

(** *** Reads *)

(** [fetchMarkets()] *)
Definition fetchMarkets (env : Chain) (c : Client) : Client * list Obj :=
  match http_markets env with
  | Ok ms =>
      let c' := set_markets
        (fold_left (fun m market => Map_set m (prop market "symbol") market) ms (markets c)) c in
      (c', Map_values (markets c'))
  | Throw _ => (c, [])
  end.

Definition balance_record (token : Val) (b : RawBalance) : Obj :=
  list_to_map [("token", token);
               ("free", VStr (ethers.formatUnits (raw_free b) 18));
               ("locked", VStr (ethers.formatUnits (raw_locked b) 18));
               ("total", VStr (ethers.formatUnits (raw_total b) 18))].

(** [fetchBalances()].  The per-token reads run concurrently under
    [Promise.all]: every read that succeeds stores its record, in the
    model in the order of the token list, and one failing read makes the
    whole call return the empty list. *)
Definition fetchBalances (env : Chain) (c : Client) : Client * list Obj :=
  match wallet c with
  | None => (c, [])
  | Some w =>
      if isEVM c then
        match getAddress w with
        | Throw _ => (c, [])
        | Ok walletAddress =>
            match vault_getUserTokens env walletAddress with
            | Throw _ => (c, [])
            | Ok tokens =>
                let store m token :=
                  match vault_getBalance env walletAddress token with
                  | Ok b => Map_set m token (balance_record token b)
                  | Throw _ => m
                  end in
                let c' := set_balances (fold_left store tokens (balances c)) c in
                if forallb (fun token => is_ok (vault_getBalance env walletAddress token)) tokens
                then (c', Map_values (balances c'))
                else (c', [])
            end
        end
      else (c, Map_values (balances c))
  end.

Definition position_record (p : RawPosition) : Obj :=
  list_to_map [("id", pos_id p);
               ("market", pos_market p);
               ("side", VStr (if pos_side p =? 0 then "long" else "short"));
               ("size", VStr (ethers.formatUnits (pos_size p) 18));
               ("leverage", VNum (div (pos_leverage p) (of_Z 100)));
               ("entryPrice", VStr (ethers.formatUnits (pos_entryPrice p) 8));
               ("liquidationPrice", VStr (ethers.formatUnits (pos_liquidationPrice p) 8));
               ("margin", VStr (ethers.formatUnits (pos_margin p) 18));
               ("pnl", VStr (ethers.formatUnits (pos_unrealizedPnl p) 18));
               ("pnlPercentage", VNum (div (pos_unrealizedPnlPercentage p) (of_Z 100)))].

(** [fetchPositions()] *)
Definition fetchPositions (env : Chain) (c : Client) : Client * list Obj :=
  match wallet c with
  | None => (c, [])
  | Some w =>
      if isEVM c then
        match getAddress w with
        | Throw _ => (c, [])
        | Ok walletAddress =>
            match margin_getUserPositions env walletAddress with
            | Throw _ => (c, [])
            | Ok ps =>
                let c' := set_positions
                  (fold_left (fun m p => Map_set m (pos_id p) (position_record p)) ps (positions c)) c in
                (c', Map_values (positions c'))
            end
        end
      else (c, Map_values (positions c))
  end.

Definition order_record (o : RawOrder) : Result Obj :=
  let? ts := toNumber (ord_timestamp o) in
  Ok (list_to_map [("id", ord_id o);
                   ("market", ord_market o);
                   ("side", VStr (if ord_side o =? 0 then "buy" else "sell"));
                   ("type", VStr (getOrderTypeName (ord_orderType o)));
                   ("price", VStr (ethers.formatUnits (ord_price o) 8));
                   ("amount", VStr (ethers.formatUnits (ord_amount o) 18));
                   ("filled", VStr (ethers.formatUnits (ord_filled o) 18));
                   ("status", VStr (getOrderStatusName (ord_status o)));
                   ("timestamp", VNum (mul ts (of_Z 1000)))]).

(** [orders.forEach(order => this.orders.set(...))]: the loop stops at the
    first order whose record cannot be built; the records stored before
    stay.  The flag tells whether the loop ran to its end. *)
Fixpoint store_orders (os : list RawOrder) (m : JSMap) : JSMap * bool :=
  match os with
  | [] => (m, true)
  | o :: os' =>
      match order_record o with
      | Ok r => store_orders os' (Map_set m (ord_id o) r)
      | Throw _ => (m, false)
      end
  end.

(** [fetchOpenOrders()] *)
Definition fetchOpenOrders (env : Chain) (c : Client) : Client * list Obj :=
  match wallet c with
  | None => (c, [])
  | Some w =>
      if isEVM c then
        match getAddress w with
        | Throw _ => (c, [])
        | Ok walletAddress =>
            match exchange_getUserOrders env walletAddress with
            | Throw _ => (c, [])
            | Ok os =>
                let '(m, completed) := store_orders os (orders c) in
                let c' := set_orders m c in
                if completed then (c', Map_values (orders c')) else (c', [])
            end
        end
      else (c, Map_values (orders c))
  end.

(** [initialize()]: the four reads; each works on its own map, so the
    order in which they are run does not matter. *)
Definition initialize (env : Chain) (c : Client) : Client :=
  let c := (fetchMarkets env c).1 in
  let c := (fetchBalances env c).1 in
  let c := (fetchPositions env c).1 in
  (fetchOpenOrders env c).1.

(** *** Writes *)

(** the argument of [createOrder]; an absent optional field is [None] (or
    [undefined] for the decimal strings) *)
Record OrderParams : Type := {
  p_market : string; p_side : string; p_type : string;
  p_price : Val; p_amount : Val;
  p_leverage : option number; p_reduceOnly : option bool;
  p_timeInForce : option string; p_stopPrice : Val;
  p_clientOrderId : option string
}.

(** the [orderParams] literal: its fields are evaluated in this order and
    only the three [parseUnits] calls can throw *)
Definition build_request (params : OrderParams) (marketInfo : Obj) (clientOrderId : string)
  : Result OrderRequest :=
  let? price := ethers.parseUnits (p_price params) 8 in
  let? amount := ethers.parseUnits (p_amount params) 18 in
  let leverage := Math_round (mul (default (of_Z 1) (p_leverage params)) (of_Z 100)) in
  let? stopPrice := (if truthy (p_stopPrice params)
                     then ethers.parseUnits (p_stopPrice params) 8 else Ok 0) in
  Ok {| req_market := prop marketInfo "address";
        req_side := if String.eqb (p_side params) "buy" then 0 else 1;
        req_orderType := getOrderTypeId (p_type params);
        req_price := price;
        req_amount := amount;
        req_leverage := leverage;
        req_reduceOnly := default false (p_reduceOnly params);
        req_timeInForce := getTimeInForceId (default "GTC" (p_timeInForce params));
        req_stopPrice := stopPrice;
        req_clientOrderId := clientOrderId |}.

(** [receipt.logs.map(parseLog).find(event => event && event.name === 'OrderCreated')] *)
Definition find_OrderCreated (logs : list (option ParsedLog)) : option ParsedLog :=
  mjoin (List.find (fun l => match l with
                             | Some ev => String.eqb (ev_name ev) "OrderCreated"
                             | None => false
                             end) logs).

Definition new_order (orderId : string) (params : OrderParams) (now : Z) (hash : string) : Obj :=
  list_to_map [("id", VStr orderId);
               ("market", VStr (p_market params));
               ("side", VStr (p_side params));
               ("type", VStr (p_type params));
               ("price", p_price params);
               ("amount", p_amount params);
               ("filled", VStr "0");
               ("status", VStr "open");
               ("timestamp", VNum (of_Z now));
               ("txHash", VStr hash)].

(** the body of the [try] block of [createOrder] on an EVM network *)
Definition createOrder_evm (params : OrderParams) (clientOrderId : string) (now : Z)
    (env : Chain) (c : Client) : Result (Client * Obj) :=
  match Map_get (markets c) (VStr (p_market params)) with
  | None => Throw ("Market " +:+ p_market params +:+ " not found")
  | Some marketInfo =>
      let? orderParams := build_request params marketInfo clientOrderId in
      match exchange_createOrder env orderParams with
      | TxFailed message => Throw message
      | TxConfirmed hash logs =>
          let orderId := match find_OrderCreated logs with
                         | Some event => ev_orderId event
                         | None => "pending"
                         end in
          let newOrder := new_order orderId params now hash in
          Ok (set_orders (Map_set (orders c) (VStr orderId) newOrder) c, newOrder)
      end
  end.

(** [createOrder(params)].  [now0] is the clock when the default
    [clientOrderId] is taken, [now1] the clock when the local record (or
    the Solana placeholder) is built.  The result is the returned object,
    [None] for [undefined]. *)
Definition createOrder (params : OrderParams) (now0 now1 : Z) (env : Chain) (c : Client)
  : Client * Result (option Obj) :=
  let clientOrderId := default (pretty now0) (p_clientOrderId params) in
  match wallet c with
  | None => (c, Throw "Wallet not connected")
  | Some _ =>
      if isEVM c then
        match createOrder_evm params clientOrderId now1 env c with
        | Ok (c', newOrder) => (c', Ok (Some newOrder))
        | Throw message => (c, Throw ("Failed to create order: " +:+ message))
        end
      else if isSolana c then
        (c, Ok (Some (list_to_map [("id", VStr ("solana-" +:+ pretty now1));
                                   ("market", VStr (p_market params));
                                   ("side", VStr (p_side params));
                                   ("type", VStr (p_type params));
                                   ("price", p_price params);
                                   ("amount", p_amount params);
                                   ("status", VStr "open")])))
      else (c, Ok None)
  end.

(** [cancelOrder(orderId)] *)
Definition cancelOrder (orderId : Val) (env : Chain) (c : Client)
  : Client * Result (option Obj) :=
  match wallet c with
  | None => (c, Throw "Wallet not connected")
  | Some _ =>
      if isEVM c then
        match exchange_cancelOrder env orderId with
        | TxFailed message => (c, Throw ("Failed to cancel order: " +:+ message))
        | TxConfirmed hash _ =>
            let c' := match Map_get (orders c) orderId with
                      | Some order =>
                          set_orders (Map_set (orders c) orderId
                                        (<["status" := VStr "canceled"]> order)) c
                      | None => c
                      end in
            (c', Ok (Some (list_to_map [("success", VBool true);
                                        ("orderId", orderId);
                                        ("txHash", VStr hash)])))
        end
      else if isSolana c then
        (c, Ok (Some (list_to_map [("success", VBool true); ("orderId", orderId)])))
      else (c, Ok None)
  end.

(** [updatePositionLeverage(positionId, newLeverage)] *)
Definition updatePositionLeverage (positionId : Val) (newLeverage : number)
    (env : Chain) (c : Client) : Client * Result (option Obj) :=
  match wallet c with
  | None => (c, Throw "Wallet not connected")
  | Some _ =>
      if isEVM c then
        let leverage := Math_round (mul newLeverage (of_Z 100)) in
        match margin_updatePositionLeverage env positionId leverage with
        | TxFailed message => (c, Throw ("Failed to update leverage: " +:+ message))
        | TxConfirmed hash _ =>
            let c' := match Map_get (positions c) positionId with
                      | Some position =>
                          set_positions (Map_set (positions c) positionId
                                           (<["leverage" := VNum newLeverage]> position)) c
                      | None => c
                      end in
            (c', Ok (Some (list_to_map [("success", VBool true);
                                        ("positionId", positionId);
                                        ("leverage", VNum newLeverage);
                                        ("txHash", VStr hash)])))
        end
      else if isSolana c then
        (c, Ok (Some (list_to_map [("success", VBool true);
                                   ("positionId", positionId);
                                   ("leverage", VNum newLeverage)])))
      else (c, Ok None)
  end.

(** *** Trade history *)

(** the argument of [getHistoricalTrades]; [limit], [from] and [to] are
    Numbers holding integers, an absent field is [None] *)
Record TradeQuery : Type := {
  q_market : option string; q_limit : option Z;
  q_from : option Z; q_to : option Z
}.

(** an integer that a Number holds exactly; [toString()] prints such a
    Number in decimal digits (it switches to exponent notation from 1e21) *)
Definition safe_integer (z : Z) : Prop := Z.abs z < 2 ^ 53.

Definition safe_query (q : TradeQuery) : Prop :=
  (∀ z, q_limit q = Some z → safe_integer z) ∧
  (∀ z, q_from q = Some z → safe_integer z) ∧
  (∀ z, q_to q = Some z → safe_integer z).

(** the entries of the [URLSearchParams], in order: [address] and [limit]
    (default 50), then [market], [from] and [to] when they are truthy (a
    non-empty string, a non-zero number); the numbers are printed as
    [toString()] prints a [safe_integer] *)
Definition trade_query_params (walletAddress : string) (q : TradeQuery)
  : list (string * string) :=
  [("address", walletAddress); ("limit", pretty (default 50 (q_limit q)))]
  ++ match q_market q with
     | Some market => if String.eqb market "" then [] else [("market", market)]
     | None => []
     end
  ++ match q_from q with
     | Some from => if from =? 0 then [] else [("from", pretty from)]
     | None => []
     end
  ++ match q_to q with
     | Some to => if to =? 0 then [] else [("to", pretty to)]
     | None => []
     end.

(** [getHistoricalTrades(params)].  [http_trades] is what the trades
    endpoint answers to a query (the [fetch] and [response.json()]); the
    call reads the wallet and nothing of the four maps. *)
Definition getHistoricalTrades (q : TradeQuery)
    (http_trades : list (string * string) → Result (list Obj)) (c : Client)
  : Result (list Obj) :=
  match wallet c with
  | None => Throw "Wallet not connected"
  | Some w =>
      match getAddress w with
      | Throw _ => Ok []
      | Ok walletAddress =>
          match http_trades (trade_query_params walletAddress q) with
          | Ok trades => Ok trades
          | Throw _ => Ok []
          end
      end
  end.

(** *** Runs of the client

    The operations that change the client state, with their arguments; a
    run applies them one after the other, each against the chain as it
    answers at that moment. *)
Inductive Op : Type :=
  | DoPush (message : Message)
  | DoInitialize
  | DoFetchMarkets
  | DoFetchBalances
  | DoFetchPositions
  | DoFetchOpenOrders
  | DoCreateOrder (params : OrderParams) (now0 now1 : Z)
  | DoCancelOrder (orderId : Val)
  | DoUpdatePositionLeverage (positionId : Val) (newLeverage : number).

Definition run (env : Chain) (op : Op) (c : Client) : Client :=
  match op with
  | DoPush message => handleWebSocketMessage message c
  | DoInitialize => initialize env c
  | DoFetchMarkets => (fetchMarkets env c).1
  | DoFetchBalances => (fetchBalances env c).1
  | DoFetchPositions => (fetchPositions env c).1
  | DoFetchOpenOrders => (fetchOpenOrders env c).1
  | DoCreateOrder params now0 now1 => (createOrder params now0 now1 env c).1
  | DoCancelOrder orderId => (cancelOrder orderId env c).1
  | DoUpdatePositionLeverage positionId newLeverage =>
      (updatePositionLeverage positionId newLeverage env c).1
  end.

Definition run_all (steps : list (Chain * Op)) (c : Client) : Client :=
  fold_left (λ c step, run step.1 step.2 c) steps c.

End TradingClient.

Import TradingClient.

(** ** Vocabulary of the specification

    The properties below are stated with these readings of the stored
    records.  None of them is computed by the client. *)

(** the decimal string in a field, as an integer number of 10^-18 units *)
Definition decimal (v : Val) : option Z :=
  match ethers.parseUnits v 18 with
  | Ok z => Some z
  | Throw _ => None
  end.

Definition le_decimal (a b : Val) : bool :=
  match decimal a, decimal b with
  | Some x, Some y => x <=? y
  | _, _ => false
  end.

(** the terminal order statuses *)
Definition terminal (status : Val) : bool :=
  bool_decide (status ∈ [VStr "filled"; VStr "canceled"; VStr "expired"; VStr "rejected"]).

(** what the order invariant asks of one step from record [o] to [o'] *)
Definition order_step_ok (o o' : Obj) : Prop :=
  le_decimal (prop o "filled") (prop o' "filled") = true ∧
  le_decimal (prop o' "filled") (prop o' "amount") = true ∧
  (terminal (prop o "status") = true → prop o' "status" = prop o "status").

(** [total == free + locked] on a balance record *)
Definition balanced (b : Obj) : bool :=
  match decimal (prop b "total"), decimal (prop b "free"), decimal (prop b "locked") with
  | Some t, Some f, Some l => t =? f + l
  | _, _, _ => false
  end.

(** The client stores no sequence marker.  For the statements about stale
    updates the marker is read from a [sequence] field, the way a push
    envelope would carry it. *)
Definition sequenceOf (o : Obj) : option number :=
  match o !! "sequence" with
  | Some (VNum x) => Some x
  | _ => None
  end.

Definition older (patch stored : Obj) : Prop :=
  ∃ sp ss, sequenceOf patch = Some sp ∧ sequenceOf stored = Some ss ∧ SFltb sp ss = true.

(** what the merge rule of the specification asks of [updateOrder] *)
Definition stale_updates_rejected : Prop :=
  ∀ (c : Client) (patch stored : Obj),
    Map_get (orders c) (prop patch "id") = Some stored →
    older patch stored →
    orders (updateOrder patch c) = orders c.

(** the object that a confirmed [cancelOrder] returns *)
Definition cancel_receipt (orderId : Val) (hash : string) : Obj :=
  list_to_map [("success", VBool true); ("orderId", orderId); ("txHash", VStr hash)].

(** the ways in which a read of one category fails *)
Definition balances_read_fails (env : Chain) (c : Client) : Prop :=
  ∃ w, wallet c = Some w ∧ isEVM c = true ∧
    (is_ok (getAddress w) = false ∨
     ∃ a, getAddress w = Ok a ∧
       (is_ok (vault_getUserTokens env a) = false ∨
        ∃ tokens token, vault_getUserTokens env a = Ok tokens ∧ token ∈ tokens ∧
                        is_ok (vault_getBalance env a token) = false)).

Definition positions_read_fails (env : Chain) (c : Client) : Prop :=
  ∃ w, wallet c = Some w ∧ isEVM c = true ∧
    (is_ok (getAddress w) = false ∨
     ∃ a, getAddress w = Ok a ∧ is_ok (margin_getUserPositions env a) = false).

Definition orders_read_fails (env : Chain) (c : Client) : Prop :=
  ∃ w, wallet c = Some w ∧ isEVM c = true ∧
    (is_ok (getAddress w) = false ∨
     ∃ a, getAddress w = Ok a ∧
       (is_ok (exchange_getUserOrders env a) = false ∨
        ∃ os, exchange_getUserOrders env a = Ok os ∧ (store_orders os (orders c)).2 = false)).

(** every record of the map sits under the key that its field [field]
    names *)
Definition keyed_by (field : string) (m : JSMap) : Prop :=
  ∀ k o, m !! k = Some o → mapKey (prop o field) = k.

Definition well_keyed (c : Client) : Prop :=
  keyed_by "id" (orders c) ∧ keyed_by "id" (positions c) ∧
  keyed_by "token" (balances c) ∧ keyed_by "symbol" (markets c).

(** [m'] comes from [m] by storing records, each under the key that its
    field [field] names (given that the records already there are) *)
Inductive grows (field : string) : JSMap → JSMap → Prop :=
  | grows_refl m : grows field m m
  | grows_set m m' k o :
      grows field m m' →
      (keyed_by field m' → mapKey (prop o field) = mapKey k) →
      grows field m (Map_set m' k o).

(** what one operation may do to the client *)
Definition step_ok (c c' : Client) : Prop :=
  network c' = network c ∧ wallet c' = wallet c ∧
  grows "id" (orders c) (orders c') ∧ grows "id" (positions c) (positions c') ∧
  grows "token" (balances c) (balances c') ∧ grows "symbol" (markets c) (markets c').

(** the field that keys the records of a push of the given type *)
Definition key_field (type : string) : string :=
  if String.eqb type "balance_update" then "token"
  else if String.eqb type "market_update" then "symbol"
  else "id".

Definition push_key (message : Message) : Val :=
  mapKey (prop (msg_data message) (key_field (msg_type message))).

(** *** Scenario data *)
Module Scenario.

Definition demo_wallet : Wallet := {| getAddress := Ok "0xabc" |}.

Definition eth_usdc : Obj :=
  list_to_map [("symbol", VStr "ETH-USDC"); ("address", VStr "0xe7h");
               ("priceDecimals", VNum (of_Z 8)); ("sizeDecimals", VNum (of_Z 18))].

(** a client on the default network with a wallet and one market *)
Definition client0 : Client :=
  updateMarket eth_usdc (new_client None (Some demo_wallet)).

(** the request of scenario B *)
Definition paramsB : OrderParams :=
  {| p_market := "ETH-USDC"; p_side := "buy"; p_type := "limit";
     p_price := VStr "1720.50"; p_amount := VStr "1.5";
     p_leverage := None; p_reduceOnly := None; p_timeInForce := None;
     p_stopPrice := VUndef; p_clientOrderId := None |}.

Definition created_42 : list (option ParsedLog) :=
  [None; Some {| ev_name := "OrderCreated"; ev_orderId := "42" |}].

(** order 42 as the confirmation stored it, tagged with sequence 2 *)
Definition order42_open : Obj :=
  list_to_map [("id", VStr "42"); ("market", VStr "ETH-USDC"); ("side", VStr "buy");
               ("type", VStr "limit"); ("price", VStr "1720.50"); ("amount", VStr "1.5");
               ("filled", VStr "0"); ("status", VStr "open"); ("sequence", VNum (of_Z 2))].

(** the push of scenario C, sequence 3 *)
Definition push_filled : Message :=
  {| msg_type := "order_update";
     msg_data := list_to_map [("id", VStr "42"); ("status", VStr "filled");
                              ("filled", VStr "1.5"); ("sequence", VNum (of_Z 3))] |}.

(** a duplicate of a push sent before the confirmation, sequence 1 *)
Definition push_stale : Message :=
  {| msg_type := "order_update";
     msg_data := list_to_map [("id", VStr "42"); ("status", VStr "open");
                              ("filled", VStr "0"); ("sequence", VNum (of_Z 1))] |}.

(** a push that reports more filled than the order's amount *)
Definition push_overfill : Message :=
  {| msg_type := "order_update";
     msg_data := list_to_map [("id", VStr "42"); ("filled", VStr "2.0")] |}.

Definition usdc : Obj :=
  list_to_map [("token", VStr "USDC"); ("free", VStr "10.0");
               ("locked", VStr "0.0"); ("total", VStr "10.0")].

(** a push that reports a new free amount only *)
Definition push_free : Message :=
  {| msg_type := "balance_update";
     msg_data := list_to_map [("token", VStr "USDC"); ("free", VStr "4.0")] |}.

(** a push that reports a consistent balance *)
Definition push_balance : Message :=
  {| msg_type := "balance_update";
     msg_data := list_to_map [("token", VStr "USDC"); ("free", VStr "4.0");
                              ("locked", VStr "6.0"); ("total", VStr "10.0")] |}.

(** what the exchange is handed in scenario B *)
Definition requestB (marketInfo : Obj) (clientOrderId : string) : OrderRequest :=
  {| req_market := prop marketInfo "address"; req_side := 0; req_orderType := 1;
     req_price := 172050000000; req_amount := 1500000000000000000;
     req_leverage := of_Z 100; req_reduceOnly := false; req_timeInForce := 0;
     req_stopPrice := 0; req_clientOrderId := clientOrderId |}.

(** a chain on which every read and every write succeeds; order creation
    emits [OrderCreated] with id 42 *)
Definition chain_ok : Chain :=
  {| http_markets := Ok [eth_usdc];
     vault_getUserTokens := λ _, Ok [VStr "USDC"];
     vault_getBalance := λ _ _, Ok {| raw_free := 10 ^ 19; raw_locked := 0; raw_total := 10 ^ 19 |};
     margin_getUserPositions := λ _, Ok [];
     exchange_getUserOrders := λ _, Ok [];
     exchange_createOrder := λ _, TxConfirmed "0x7a" created_42;
     exchange_cancelOrder := λ _, TxConfirmed "0x7b" [];
     margin_updatePositionLeverage := λ _ _, TxConfirmed "0x7c" [] |}.

(** a chain whose receipts carry no event that can be decoded *)
Definition chain_no_event : Chain :=
  {| http_markets := Ok [eth_usdc];
     vault_getUserTokens := λ _, Ok [];
     vault_getBalance := λ _ _, Throw "no such token";
     margin_getUserPositions := λ _, Ok [];
     exchange_getUserOrders := λ _, Ok [];
     exchange_createOrder := λ _, TxConfirmed "0x7d" [None];
     exchange_cancelOrder := λ _, TxConfirmed "0x7e" [];
     margin_updatePositionLeverage := λ _ _, TxConfirmed "0x7f" [] |}.

(** a position as [fetchPositions] stores it, leverage 42.17 *)
Definition position9 : Obj :=
  position_record {| pos_id := VStr "9"; pos_market := VStr "ETH-USDC"; pos_side := 0;
                     pos_size := 2 * 10 ^ 18; pos_leverage := of_Z 4217;
                     pos_entryPrice := 172050000000; pos_liquidationPrice := 150000000000;
                     pos_margin := 10 ^ 18; pos_unrealizedPnl := 0;
                     pos_unrealizedPnlPercentage := of_Z 0 |}.

Definition c_position : Client := updatePosition position9 client0.

(** two open orders as the exchange reports them; the second one has a
    timestamp that no Number holds exactly *)
Definition raw_order7 : RawOrder :=
  {| ord_id := VStr "7"; ord_market := VStr "ETH-USDC"; ord_side := 1; ord_orderType := 1;
     ord_price := 180000000000; ord_amount := 10 ^ 18; ord_filled := 0; ord_status := 0;
     ord_timestamp := 1700000000 |}.

Definition raw_order8 : RawOrder :=
  {| ord_id := VStr "8"; ord_market := VStr "ETH-USDC"; ord_side := 0; ord_orderType := 2;
     ord_price := 160000000000; ord_amount := 10 ^ 18; ord_filled := 0; ord_status := 0;
     ord_timestamp := 2 ^ 53 |}.

Definition chain_bad_order : Chain :=
  {| http_markets := Ok [eth_usdc];
     vault_getUserTokens := λ _, Ok [];
     vault_getBalance := λ _ _, Throw "no such token";
     margin_getUserPositions := λ _, Ok [];
     exchange_getUserOrders := λ _, Ok [raw_order7; raw_order8; raw_order7];
     exchange_createOrder := λ _, TxFailed "paused";
     exchange_cancelOrder := λ _, TxFailed "paused";
     margin_updatePositionLeverage := λ _ _, TxFailed "paused" |}.

(** a trades endpoint that echoes the query it was sent *)
Definition trades_echo (query : list (string * string)) : Result (list Obj) :=
  Ok [list_to_map (prod_map id VStr <$> query)].

(** a query for the 20 latest trades of one market since a timestamp *)
Definition trades_since : TradeQuery :=
  {| q_market := Some "ETH-USDC"; q_limit := Some 20;
     q_from := Some 1700000000000; q_to := Some 0 |}.

(** a chain and an endpoint that are down *)
Definition chain_down : Chain :=
  {| http_markets := Throw "fetch failed";
     vault_getUserTokens := λ _, Throw "network error";
     vault_getBalance := λ _ _, Throw "network error";
     margin_getUserPositions := λ _, Throw "network error";
     exchange_getUserOrders := λ _, Throw "network error";
     exchange_createOrder := λ _, TxFailed "network error";
     exchange_cancelOrder := λ _, TxFailed "network error";
     margin_updatePositionLeverage := λ _ _, TxFailed "network error" |}.

(** a client on Solana with a wallet and no market *)
Definition client_solana : Client := new_client (Some "solana") (Some demo_wallet).

(** the same client with order 42 stored open *)
Definition c_solana_open : Client := updateOrder order42_open client_solana.

(** a client without a wallet *)
Definition client_no_wallet : Client := updateMarket eth_usdc (new_client None None).

(** order 42 stored open (sequence 2), then the push that fills it
    (sequence 3) *)
Definition c_open : Client := updateOrder order42_open client0.
Definition c_filled : Client := handleWebSocketMessage push_filled c_open.
Definition o_filled : Obj := spread (Some order42_open) (msg_data push_filled).

(** the balance of USDC, stored consistent *)
Definition c_usdc : Client := updateBalance usdc client0.

End Scenario.

(** * Properties *)

(** ** Maps and objects *)
Section MapFacts.

Implicit Types (m : JSMap) (k : Val) (o : Obj).

Lemma Map_get_set_eq m k o : Map_get (Map_set m k o) k = Some o.
Proof. unfold Map_get, Map_set. apply lookup_insert_eq. Qed.

Lemma Map_get_set_ne m k k' o :
  mapKey k ≠ mapKey k' → Map_get (Map_set m k o) k' = Map_get m k'.
Proof. intros Hne. unfold Map_get, Map_set. by apply lookup_insert_ne. Qed.

Lemma mapKey_idemp k : mapKey (mapKey k) = mapKey k.
Proof. by destruct k as [| | |[[]| | |]|]. Qed.

Lemma mapKey_VStr (s : string) : mapKey (VStr s) = VStr s.
Proof. reflexivity. Qed.

Lemma lookup_spread (a : option Obj) (b : Obj) (f : string) :
  spread a b !! f = match b !! f with
                    | Some v => Some v
                    | None => a ≫= (.!! f)
                    end.
Proof.
  unfold spread. rewrite lookup_union.
  destruct (b !! f) as [v|] eqn:Hb.
  - by destruct (default ∅ a !! f).
  - destruct a as [a|]; simpl; [by destruct (a !! f) | by rewrite lookup_empty].
Qed.

Lemma prop_spread_carried (a : option Obj) (b : Obj) (f : string) (v : Val) :
  b !! f = Some v → prop (spread a b) f = v.
Proof. intros Hb. unfold prop. by rewrite lookup_spread, Hb. Qed.

Lemma prop_spread_kept (a b : Obj) (f : string) :
  b !! f = None → prop (spread (Some a) b) f = prop a f.
Proof. intros Hb. unfold prop. by rewrite lookup_spread, Hb. Qed.

End MapFacts.

(** ** Order types *)

Lemma getOrderTypeName_in_range (typeId : Z) (name : string) :
  index typeNames typeId = Some name → getOrderTypeName typeId = name.
Proof. unfold getOrderTypeName. by intros ->. Qed.

Lemma getOrderTypeName_unknown (typeId : Z) :
  typeId < 0 ∨ 4 < typeId → getOrderTypeName typeId = "unknown".
Proof.
  intros Hout. unfold getOrderTypeName, index.
  destruct (0 <=? typeId) eqn:Hle; [|done].
  apply Z.leb_le in Hle.
  rewrite (lookup_ge_None_2 typeNames (Z.to_nat typeId)); [done|].
  simpl. lia.
Qed.

Lemma getOrderTypeId_roundtrip_except_market (name : string) :
  name ∈ ["limit"; "stop"; "stopLimit"; "trailingStop"] →
  getOrderTypeName (getOrderTypeId name) = name.
Proof.
  intros Hin. repeat (apply elem_of_cons in Hin as [->|Hin]; [reflexivity|]).
  by apply elem_of_nil in Hin.
Qed.

(** C4. [getOrderTypeId] sends ["market"] to 1, because the stored id [0]
    is falsy under [|| 1]; decoding that id gives ["limit"], so the
    name/id table does not round-trip on ["market"]. *)
Theorem getOrderTypeId_market_decodes_to_limit :
  getOrderTypeId "market" = 1 ∧
  getOrderTypeName (getOrderTypeId "market") = "limit" ∧
  typeMap !! "market" = Some 0 ∧
  getOrderTypeName 0 = "market".
Proof. repeat split; reflexivity. Qed.

(** ** Merging push data *)
Section Merge.

Implicit Types (c : Client) (d o : Obj) (k : Val) (f : string).

Lemma updateOrder_stored c d :
  Map_get (orders (updateOrder d c)) (prop d "id")
  = Some (spread (Map_get (orders c) (prop d "id")) d).
Proof. unfold updateOrder. simpl. apply Map_get_set_eq. Qed.

Lemma updateOrder_other c d k :
  mapKey k ≠ mapKey (prop d "id") →
  Map_get (orders (updateOrder d c)) k = Map_get (orders c) k.
Proof. intros Hne. unfold updateOrder. simpl. by apply Map_get_set_ne. Qed.

Lemma updateBalance_stored c d :
  Map_get (balances (updateBalance d c)) (prop d "token")
  = Some (spread (Map_get (balances c) (prop d "token")) d).
Proof. unfold updateBalance. simpl. apply Map_get_set_eq. Qed.

(** C1, as the code has it.  [updateOrder] compares no sequence marker and
    rejects nothing: the record stored under the update's id afterwards
    holds, field by field, the update's value where the update carries the
    field and the previously stored value otherwise; the other orders and
    the other three maps are untouched. *)
Theorem updateOrder_merges_unconditionally c d :
  let id := prop d "id" in
  let c' := updateOrder d c in
  (∀ f, Map_get (orders c') id ≫= (.!! f)
        = match d !! f with
          | Some v => Some v
          | None => Map_get (orders c) id ≫= (.!! f)
          end) ∧
  (∀ k, mapKey k ≠ mapKey id → Map_get (orders c') k = Map_get (orders c) k) ∧
  positions c' = positions c ∧ balances c' = balances c ∧ markets c' = markets c.
Proof.
  cbv zeta. split; [|split; [|done]].
  - intros f. rewrite updateOrder_stored. simpl. apply lookup_spread.
  - intros k Hne. by apply updateOrder_other.
Qed.

(** After a run of updates on one order, a field holds the value of the
    update that arrived last among those carrying it. *)
Lemma updateOrder_last_arrival_wins c (ds : list Obj) k f :
  Forall (λ d, prop d "id" = k) ds →
  Map_get (orders (fold_left (λ c d, updateOrder d c) ds c)) k ≫= (.!! f)
  = match list_find (λ d, is_Some (d !! f)) (reverse ds) with
    | Some (_, d) => d !! f
    | None => Map_get (orders c) k ≫= (.!! f)
    end.
Proof.
  revert c. induction ds as [|d ds IH] using rev_ind; intros c Hall; [done|].
  apply Forall_app in Hall as [Hds Hd]. apply Forall_inv in Hd. subst k.
  rewrite fold_left_app, reverse_snoc. cbn [fold_left].
  rewrite updateOrder_stored. simpl. rewrite lookup_spread.
  destruct (decide (is_Some (d !! f))) as [[v Hv]|Hnone].
  - by rewrite Hv.
  - apply eq_None_not_Some in Hnone. rewrite Hnone.
    rewrite IH by done. by destruct (list_find _ (reverse ds)) as [[? ?]|].
Qed.

(** C2, as the code has it.  For [filled], [amount] and [status] the
    record after [updateOrder] holds the update's value where the update
    carries the field and the stored value otherwise; so an update that
    carries none of the three keeps the order invariant of a record that
    had [filled <= amount]. *)
Theorem updateOrder_keeps_fields_it_does_not_carry c d o :
  Map_get (orders c) (prop d "id") = Some o →
  ∃ o', Map_get (orders (updateOrder d c)) (prop d "id") = Some o' ∧
        (∀ f v, d !! f = Some v → prop o' f = v) ∧
        (∀ f, d !! f = None → prop o' f = prop o f) ∧
        (d !! "filled" = None → d !! "amount" = None → d !! "status" = None →
         le_decimal (prop o "filled") (prop o "amount") = true →
         order_step_ok o o').
Proof.
  intros Ho. eexists. split; [apply updateOrder_stored|]. rewrite Ho.
  split; [|split].
  - intros f v Hf. by apply prop_spread_carried.
  - intros f Hf. by apply prop_spread_kept.
  - intros Hfilled Hamount Hstatus Hle. unfold order_step_ok.
    rewrite !prop_spread_kept by done. split; [|done].
    unfold le_decimal in *. destruct (decimal (prop o "filled")); [|done].
    apply Z.leb_refl.
Qed.

(** C3, as the code has it.  [updateBalance] stores the field-wise merge
    without checking it: [total == free + locked] holds afterwards when the
    update carries three fields that satisfy it, and when the update
    carries none of the three and the stored record satisfied it. *)
Theorem updateBalance_balanced_when_update_is c d :
  let b' := spread (Map_get (balances c) (prop d "token")) d in
  Map_get (balances (updateBalance d c)) (prop d "token") = Some b' ∧
  (is_Some (d !! "total") → is_Some (d !! "free") → is_Some (d !! "locked") →
   balanced d = true → balanced b' = true) ∧
  (∀ b, Map_get (balances c) (prop d "token") = Some b →
        d !! "total" = None → d !! "free" = None → d !! "locked" = None →
        balanced b = true → balanced b' = true).
Proof.
  cbv zeta. split; [apply updateBalance_stored|]. split.
  - intros [t Ht] [fr Hfr] [l Hl] Hd. unfold balanced in *.
    rewrite (prop_spread_carried _ _ _ _ Ht), (prop_spread_carried _ _ _ _ Hfr),
      (prop_spread_carried _ _ _ _ Hl).
    unfold prop in Hd. by rewrite Ht, Hfr, Hl in Hd.
  - intros b -> Ht Hfr Hl Hb. unfold balanced.
    by rewrite !prop_spread_kept.
Qed.

End Merge.

(** ** The merge rule on concrete histories *)
Section MergeScenarios.

Import Scenario.

Lemma c_filled_order : Map_get (orders c_filled) (VStr "42") = Some o_filled.
Proof. reflexivity. Qed.

(** C1, refuted as stated.  Order 42 is filled by the push with sequence
    3; the duplicate with sequence 1 that arrives afterwards is older than
    the stored record, and still it changes the store: the status is
    ["open"] again. *)
Lemma stale_update_overwrites_filled_order :
  let c_after := handleWebSocketMessage push_stale c_filled in
  prop o_filled "status" = VStr "filled" ∧
  prop o_filled "filled" = VStr "1.5" ∧
  older (msg_data push_stale) o_filled ∧
  orders c_after ≠ orders c_filled ∧
  (Map_get (orders c_after) (VStr "42") ≫= (.!! "status")) = Some (VStr "open") ∧
  ¬ stale_updates_rejected.
Proof.
  assert (Hold : older (msg_data push_stale) o_filled).
  { exists (of_Z 1), (of_Z 3). repeat split; reflexivity. }
  assert (Hne : orders (handleWebSocketMessage push_stale c_filled) ≠ orders c_filled).
  { intros Heq. apply (f_equal (λ m, Map_get m (VStr "42") ≫= (.!! "status"))) in Heq.
    vm_compute in Heq. discriminate. }
  cbv zeta. repeat split; try reflexivity; try done.
  intros Hrej. apply Hne.
  apply (Hrej c_filled (msg_data push_stale) o_filled); [reflexivity|exact Hold].
Qed.

(** C2, refuted as stated.  On the filled order 42 (filled 1.5 of amount
    1.5) the stale push is applied: [filled] drops to 0 and the terminal
    status ["filled"] becomes ["open"]; the over-fill push is applied too:
    [filled] 2.0 exceeds [amount] 1.5. *)
Lemma order_update_breaks_order_invariant :
  let o_stale := spread (Some o_filled) (msg_data push_stale) in
  let o_over := spread (Some o_filled) (msg_data push_overfill) in
  le_decimal (prop o_filled "filled") (prop o_filled "amount") = true ∧
  terminal (prop o_filled "status") = true ∧
  Map_get (orders (handleWebSocketMessage push_stale c_filled)) (VStr "42") = Some o_stale ∧
  Map_get (orders (handleWebSocketMessage push_overfill c_filled)) (VStr "42") = Some o_over ∧
  le_decimal (prop o_filled "filled") (prop o_stale "filled") = false ∧
  prop o_stale "status" = VStr "open" ∧
  le_decimal (prop o_over "filled") (prop o_over "amount") = false ∧
  ¬ order_step_ok o_filled o_stale ∧
  ¬ order_step_ok o_filled o_over.
Proof.
  cbv zeta. repeat split; try reflexivity.
  - intros (Hle & _ & _). vm_compute in Hle. discriminate.
  - intros (_ & Hle & _). vm_compute in Hle. discriminate.
Qed.

Lemma updateOrder_keeps_fields_it_does_not_carry_witness :
  let d : Obj := list_to_map [("id", VStr "42"); ("txHash", VStr "0xbeef")] in
  Map_get (orders c_filled) (prop d "id") = Some o_filled ∧
  ∃ o', Map_get (orders (updateOrder d c_filled)) (prop d "id") = Some o' ∧
        (∀ f v, d !! f = Some v → prop o' f = v) ∧
        (∀ f, d !! f = None → prop o' f = prop o_filled f) ∧
        (d !! "filled" = None → d !! "amount" = None → d !! "status" = None →
         le_decimal (prop o_filled "filled") (prop o_filled "amount") = true →
         order_step_ok o_filled o').
Proof.
  cbv zeta. split; [reflexivity|].
  apply (updateOrder_keeps_fields_it_does_not_carry c_filled
           (list_to_map [("id", VStr "42"); ("txHash", VStr "0xbeef")]) o_filled).
  reflexivity.
Defined.

(** C3, refuted as stated.  The stored USDC balance satisfies
    [total == free + locked] (10 = 10 + 0); after the push that carries
    only [free = 4.0] the record reads free 4, locked 0, total 10. *)
Lemma balance_update_breaks_total :
  let b_after := spread (Some usdc) (msg_data push_free) in
  Map_get (balances c_usdc) (VStr "USDC") = Some usdc ∧
  balanced usdc = true ∧
  Map_get (balances (handleWebSocketMessage push_free c_usdc)) (VStr "USDC") = Some b_after ∧
  prop b_after "free" = VStr "4.0" ∧
  prop b_after "locked" = VStr "0.0" ∧
  prop b_after "total" = VStr "10.0" ∧
  balanced b_after = false.
Proof. cbv zeta. repeat split; reflexivity. Qed.

Lemma updateBalance_balanced_when_update_is_witness :
  let d := msg_data push_balance in
  let d' : Obj := list_to_map [("token", VStr "USDC"); ("asOf", VNum (of_Z 7))] in
  balanced (spread (Map_get (balances c_usdc) (prop d "token")) d) = true ∧
  balanced (spread (Map_get (balances c_usdc) (prop d' "token")) d') = true.
Proof.
  cbv zeta. split.
  - apply (updateBalance_balanced_when_update_is c_usdc (msg_data push_balance));
      (by eexists) || reflexivity.
  - apply (updateBalance_balanced_when_update_is c_usdc
             (list_to_map [("token", VStr "USDC"); ("asOf", VNum (of_Z 7))])) with usdc;
      reflexivity.
Defined.

End MergeScenarios.

(** ** Order creation *)
Section CreateOrder.

Import Scenario.

Lemma build_request_paramsB (marketInfo : Obj) (clientOrderId : string) :
  build_request paramsB marketInfo clientOrderId = Ok (requestB marketInfo clientOrderId).
Proof. reflexivity. Qed.

(** C5.  Scenario B on an EVM network with a bound wallet and the market
    known: when the exchange confirms the request and the receipt's
    [OrderCreated] event carries id 42, [createOrder] returns the new
    record and the orders map is the old one with that record under "42",
    status "open", filled "0"; nothing is stored under the
    [clientOrderId], so a store without a record there has none
    afterwards, and an empty store holds the one record. *)
Theorem createOrder_scenarioB_keyed_by_chain_id
    (env : Chain) (c : Client) (w : Wallet) (marketInfo : Obj)
    (now0 now1 : Z) (hash : string) (logs : list (option ParsedLog)) (event : ParsedLog) :
  wallet c = Some w →
  isEVM c = true →
  Map_get (markets c) (VStr "ETH-USDC") = Some marketInfo →
  exchange_createOrder env (requestB marketInfo (pretty now0)) = TxConfirmed hash logs →
  find_OrderCreated logs = Some event →
  ev_orderId event = "42" →
  pretty now0 ≠ "42" →
  Map_get (orders c) (VStr (pretty now0)) = None →
  let newOrder := new_order "42" paramsB now1 hash in
  let c' := (createOrder paramsB now0 now1 env c).1 in
  (createOrder paramsB now0 now1 env c).2 = Ok (Some newOrder) ∧
  orders c' = <[VStr "42" := newOrder]> (orders c) ∧
  Map_get (orders c') (VStr "42") = Some newOrder ∧
  prop newOrder "status" = VStr "open" ∧
  prop newOrder "filled" = VStr "0" ∧
  Map_get (orders c') (VStr (pretty now0)) = None ∧
  (orders c = ∅ → orders c' = {[VStr "42" := newOrder]}).
Proof.
  intros Hw Hevm Hm Htx Hev Hid Hcid Hfresh. cbv zeta.
  unfold createOrder, createOrder_evm. rewrite Hw, Hevm.
  change (p_market paramsB) with "ETH-USDC". change (p_clientOrderId paramsB) with (@None string).
  rewrite Hm. cbn [default]. rewrite build_request_paramsB. cbn [rbind].
  rewrite Htx, Hev, Hid. cbn [fst snd orders set_orders].
  repeat split; try reflexivity.
  - apply Map_get_set_eq.
  - rewrite Map_get_set_ne; [done|]. cbn [mapKey]. congruence.
  - intros ->. reflexivity.
Qed.

Lemma createOrder_scenarioB_keyed_by_chain_id_witness :
  let now0 := 1700000000000 in
  let now1 := 1700000002500 in
  let newOrder := new_order "42" paramsB now1 "0x7a" in
  let c' := (createOrder paramsB now0 now1 chain_ok client0).1 in
  (createOrder paramsB now0 now1 chain_ok client0).2 = Ok (Some newOrder) ∧
  orders c' = <[VStr "42" := newOrder]> (orders client0) ∧
  Map_get (orders c') (VStr "42") = Some newOrder ∧
  prop newOrder "status" = VStr "open" ∧
  prop newOrder "filled" = VStr "0" ∧
  Map_get (orders c') (VStr (pretty now0)) = None ∧
  (orders client0 = ∅ → orders c' = {[VStr "42" := newOrder]}).
Proof.
  cbv zeta.
  apply (createOrder_scenarioB_keyed_by_chain_id chain_ok client0 demo_wallet eth_usdc
           1700000000000 1700000002500 "0x7a" created_42
           {| ev_name := "OrderCreated"; ev_orderId := "42" |});
    try reflexivity.
  vm_compute. discriminate.
Defined.

(** C7, refuted as stated.  On the Solana network, with a wallet bound and
    no market known, [createOrder] does not fail: it returns a placeholder
    order. *)
Lemma createOrder_unknown_market_succeeds_on_solana :
  wallet client_solana ≠ None ∧
  Map_get (markets client_solana) (VStr (p_market paramsB)) = None ∧
  ∃ order, createOrder paramsB 1700000000000 1700000002500 chain_ok client_solana
           = (client_solana, Ok (Some order)) ∧
           prop order "status" = VStr "open".
Proof.
  split; [done|]. split; [reflexivity|].
  eexists. split; [reflexivity|reflexivity].
Qed.

(** C7, as the code has it.  Without a wallet [createOrder] throws
    "Wallet not connected"; on an EVM network, with a wallet and the
    market missing from the markets map, it throws "Failed to create
    order: Market <symbol> not found".  In both cases the client state,
    and with it the orders map, is unchanged. *)
Theorem createOrder_rejects_missing_wallet_and_market
    (params : OrderParams) (now0 now1 : Z) (env : Chain) (c : Client) :
  (wallet c = None →
   createOrder params now0 now1 env c = (c, Throw "Wallet not connected")) ∧
  (wallet c ≠ None → isEVM c = true →
   Map_get (markets c) (VStr (p_market params)) = None →
   createOrder params now0 now1 env c
   = (c, Throw ("Failed to create order: Market " +:+ p_market params +:+ " not found"))).
Proof.
  split.
  - intros Hw. unfold createOrder. by rewrite Hw.
  - intros Hw Hevm Hm. unfold createOrder, createOrder_evm.
    destruct (wallet c); [|done]. by rewrite Hevm, Hm.
Qed.

Lemma createOrder_rejects_missing_wallet_and_market_witness :
  createOrder paramsB 1700000000000 1700000002500 chain_ok client_no_wallet
  = (client_no_wallet, Throw "Wallet not connected") ∧
  createOrder paramsB 1700000000000 1700000002500 chain_ok
    (new_client None (Some demo_wallet))
  = (new_client None (Some demo_wallet),
     Throw "Failed to create order: Market ETH-USDC not found").
Proof.
  split.
  - apply (createOrder_rejects_missing_wallet_and_market paramsB 1700000000000
             1700000002500 chain_ok client_no_wallet). reflexivity.
  - apply (createOrder_rejects_missing_wallet_and_market paramsB 1700000000000
             1700000002500 chain_ok (new_client None (Some demo_wallet)));
      [done|reflexivity|reflexivity].
Defined.

End CreateOrder.

(** ** Cancellation *)
Section CancelOrder.

Import Scenario.

Implicit Types (env : Chain) (c : Client) (orderId k : Val) (o : Obj).

(** C6, refuted as stated.  Order "7" is not in the store; the chain
    confirms its cancellation and [cancelOrder] reports success, but the
    orders map holds no record for "7" afterwards. *)
Lemma cancelOrder_unknown_id_inserts_nothing :
  let '(c', r) := cancelOrder (VStr "7") chain_ok client0 in
  Map_get (orders client0) (VStr "7") = None ∧
  r = Ok (Some (cancel_receipt (VStr "7") "0x7b")) ∧
  Map_get (orders c') (VStr "7") = None ∧
  c' = client0.
Proof. repeat split; reflexivity. Qed.

(** C6, as the code has it.  For an order id that is absent from the
    orders map, on an EVM network with a wallet bound, [cancelOrder] hands
    the id to the exchange: when the cancellation is confirmed it returns
    the success receipt with the transaction hash and leaves the client
    state as it was, without a record for the id; when the exchange fails
    the call throws "Failed to cancel order: ...". *)
Theorem cancelOrder_unknown_id_leaves_store env c orderId :
  wallet c ≠ None →
  isEVM c = true →
  Map_get (orders c) orderId = None →
  (∀ hash logs, exchange_cancelOrder env orderId = TxConfirmed hash logs →
     cancelOrder orderId env c = (c, Ok (Some (cancel_receipt orderId hash)))) ∧
  (∀ message, exchange_cancelOrder env orderId = TxFailed message →
     cancelOrder orderId env c = (c, Throw ("Failed to cancel order: " +:+ message))).
Proof.
  intros Hw Hevm Hnone. unfold cancelOrder.
  destruct (wallet c); [|done]. rewrite Hevm.
  split; intros; by rewrite H, ?Hnone.
Qed.

Lemma cancelOrder_unknown_id_leaves_store_witness :
  cancelOrder (VStr "7") chain_ok client0
  = (client0, Ok (Some (cancel_receipt (VStr "7") "0x7b"))) ∧
  cancelOrder (VStr "7") chain_down client0
  = (client0, Throw "Failed to cancel order: network error").
Proof.
  assert (H := cancelOrder_unknown_id_leaves_store).
  split.
  - apply (H chain_ok client0 (VStr "7")) with []; done.
  - apply (H chain_down client0 (VStr "7")); done.
Defined.

(** C10, refuted as stated.  On the Solana network order "42" is stored
    with status "open"; [cancelOrder] does not throw, it returns the
    success receipt (without a transaction hash), and the stored order
    still has status "open": the client state is the one before the
    call. *)
Lemma cancelOrder_on_solana_keeps_status_open :
  let '(c', r) := cancelOrder (VStr "42") chain_ok c_solana_open in
  Map_get (orders c_solana_open) (VStr "42") = Some order42_open ∧
  r = Ok (Some (list_to_map [("success", VBool true); ("orderId", VStr "42")])) ∧
  Map_get (orders c') (VStr "42") ≫= (.!! "status") = Some (VStr "open") ∧
  c' = c_solana_open.
Proof. repeat split; reflexivity. Qed.

(** C10, as the code has it.  For an order id present in the orders map,
    a [cancelOrder] that does not throw leaves every field of that order
    other than [status] as it was; on an EVM network it sets [status] to
    "canceled", on any other network it leaves the whole client state,
    the status included, as it was.  Every other order and the positions,
    balances and markets maps are unchanged. *)
Theorem cancelOrder_changes_only_status env c orderId o c' r :
  Map_get (orders c) orderId = Some o →
  cancelOrder orderId env c = (c', Ok r) →
  (∃ o', Map_get (orders c') orderId = Some o' ∧
         (∀ f, f ≠ "status" → o' !! f = o !! f) ∧
         (isEVM c = true → o' !! "status" = Some (VStr "canceled"))) ∧
  (isEVM c = false → c' = c) ∧
  (∀ k, mapKey k ≠ mapKey orderId → Map_get (orders c') k = Map_get (orders c) k) ∧
  positions c' = positions c ∧ balances c' = balances c ∧ markets c' = markets c ∧
  network c' = network c ∧ wallet c' = wallet c.
Proof.
  intros Ho. unfold cancelOrder.
  destruct (wallet c) as [w|] eqn:Hw; [|done].
  destruct (isEVM c) eqn:Hevm.
  - destruct (exchange_cancelOrder env orderId) as [msg|hash logs]; [done|].
    rewrite Ho. intros [= <- <-]. simpl. split; [|split; [done|split; [|done]]].
    + exists (<["status" := VStr "canceled"]> o). split; [apply Map_get_set_eq|].
      split; [|by rewrite lookup_insert_eq].
      intros f Hf. by rewrite lookup_insert_ne.
    + intros k Hk. by apply Map_get_set_ne.
  - intros Hc. assert (c' = c) as -> by (destruct (isSolana c); congruence).
    split; [|done].
    exists o. split; [done|]. split; [done|]. intros [=].
Qed.

Lemma cancelOrder_changes_only_status_witness :
  let c' := (cancelOrder (VStr "42") chain_ok c_open).1 in
  (∃ o', Map_get (orders c') (VStr "42") = Some o' ∧
         (∀ f, f ≠ "status" → o' !! f = order42_open !! f) ∧
         (isEVM c_open = true → o' !! "status" = Some (VStr "canceled"))) ∧
  (isEVM c_open = false → c' = c_open) ∧
  (∀ k, mapKey k ≠ mapKey (VStr "42") → Map_get (orders c') k = Map_get (orders c_open) k) ∧
  positions c' = positions c_open ∧ balances c' = balances c_open ∧
  markets c' = markets c_open ∧ network c' = network c_open ∧ wallet c' = wallet c_open.
Proof.
  cbv zeta.
  apply (cancelOrder_changes_only_status chain_ok c_open (VStr "42") order42_open
           (cancelOrder (VStr "42") chain_ok c_open).1
           (Some (cancel_receipt (VStr "42") "0x7b"))); reflexivity.
Defined.

End CancelOrder.

(** ** Reads and bootstrap *)
Section Fetch.

Import Scenario.

Implicit Types (env : Chain) (c : Client).

Lemma isEVM_network c1 c2 : network c1 = network c2 → isEVM c1 = isEVM c2.
Proof. unfold isEVM. by intros ->. Qed.

Lemma forallb_false_elem {A} (p : A → bool) (l : list A) (x : A) :
  x ∈ l → p x = false → forallb p l = false.
Proof.
  intros Hin Hx. induction l as [|y l IH]; [by apply elem_of_nil in Hin|].
  simpl. apply elem_of_cons in Hin as [->|Hin].
  - by rewrite Hx.
  - rewrite IH by done. apply andb_false_r.
Qed.

Lemma fetchBalances_failure env c :
  balances_read_fails env c → (fetchBalances env c).2 = [].
Proof.
  intros (w & Hw & Hevm & Hfail). unfold fetchBalances. rewrite Hw, Hevm.
  destruct Hfail as [Haddr|(a & Ha & Hfail)].
  { by destruct (getAddress w). }
  rewrite Ha. destruct Hfail as [Htok|(tokens & token & Htok & Hin & Hbal)].
  { by destruct (vault_getUserTokens env a). }
  rewrite Htok. cbv zeta.
  by rewrite (forallb_false_elem _ tokens token Hin Hbal).
Qed.

Lemma fetchPositions_failure env c :
  positions_read_fails env c → fetchPositions env c = (c, []).
Proof.
  intros (w & Hw & Hevm & Hfail). unfold fetchPositions. rewrite Hw, Hevm.
  destruct Hfail as [Haddr|(a & Ha & Hfail)].
  { by destruct (getAddress w). }
  rewrite Ha. by destruct (margin_getUserPositions env a).
Qed.

Lemma fetchOpenOrders_failure env c :
  orders_read_fails env c → (fetchOpenOrders env c).2 = [].
Proof.
  intros (w & Hw & Hevm & Hfail). unfold fetchOpenOrders. rewrite Hw, Hevm.
  destruct Hfail as [Haddr|(a & Ha & Hfail)].
  { by destruct (getAddress w). }
  rewrite Ha. destruct Hfail as [Hos|(os & Hos & Hstop)].
  { by destruct (exchange_getUserOrders env a). }
  rewrite Hos. destruct (store_orders os (orders c)) as [m completed].
  simpl in Hstop. by rewrite Hstop.
Qed.

(** each read touches its own map only *)
Lemma fetchMarkets_frame env c :
  let c' := (fetchMarkets env c).1 in
  network c' = network c ∧ wallet c' = wallet c ∧ positions c' = positions c ∧
  orders c' = orders c ∧ balances c' = balances c.
Proof. unfold fetchMarkets. by destruct (http_markets env). Qed.

Lemma fetchBalances_frame env c :
  let c' := (fetchBalances env c).1 in
  network c' = network c ∧ wallet c' = wallet c ∧ positions c' = positions c ∧
  orders c' = orders c ∧ markets c' = markets c.
Proof.
  unfold fetchBalances. cbv zeta. repeat case_match; done.
Qed.

Lemma fetchPositions_frame env c :
  let c' := (fetchPositions env c).1 in
  network c' = network c ∧ wallet c' = wallet c ∧ balances c' = balances c ∧
  orders c' = orders c ∧ markets c' = markets c.
Proof.
  unfold fetchPositions. cbv zeta. repeat case_match; done.
Qed.

(** and reads nothing but the network, the wallet and its own map *)
Lemma fetchBalances_own env c1 c2 :
  network c1 = network c2 → wallet c1 = wallet c2 → balances c1 = balances c2 →
  balances (fetchBalances env c1).1 = balances (fetchBalances env c2).1.
Proof.
  intros Hn Hw Hb. unfold fetchBalances. cbv zeta.
  rewrite (isEVM_network c1 c2 Hn), Hw, Hb.
  repeat case_match; done.
Qed.

Lemma fetchPositions_own env c1 c2 :
  network c1 = network c2 → wallet c1 = wallet c2 → positions c1 = positions c2 →
  positions (fetchPositions env c1).1 = positions (fetchPositions env c2).1.
Proof.
  intros Hn Hw Hp. unfold fetchPositions. cbv zeta.
  rewrite (isEVM_network c1 c2 Hn), Hw, Hp.
  repeat case_match; done.
Qed.

Lemma fetchOpenOrders_own env c1 c2 :
  network c1 = network c2 → wallet c1 = wallet c2 → orders c1 = orders c2 →
  orders (fetchOpenOrders env c1).1 = orders (fetchOpenOrders env c2).1.
Proof.
  intros Hn Hw Ho. unfold fetchOpenOrders. cbv zeta.
  rewrite (isEVM_network c1 c2 Hn), Hw, Ho.
  repeat case_match; done.
Qed.

Lemma fetchOpenOrders_markets env c : markets (fetchOpenOrders env c).1 = markets c.
Proof. unfold fetchOpenOrders. cbv zeta. repeat case_match; done. Qed.

(** C8.  Each read returns the empty list when one of its calls fails,
    and the three wallet-bound reads return the empty list and leave the
    state alone when no wallet is bound.  No read throws, and after
    [initialize] each map is what its own read makes of it, whatever
    happened to the other three. *)
Theorem fetch_failure_gives_empty_list env c :
  (is_ok (http_markets env) = false → fetchMarkets env c = (c, [])) ∧
  (balances_read_fails env c → (fetchBalances env c).2 = []) ∧
  (positions_read_fails env c → (fetchPositions env c).2 = []) ∧
  (orders_read_fails env c → (fetchOpenOrders env c).2 = []) ∧
  (wallet c = None →
   fetchBalances env c = (c, []) ∧ fetchPositions env c = (c, []) ∧
   fetchOpenOrders env c = (c, [])) ∧
  markets (initialize env c) = markets (fetchMarkets env c).1 ∧
  balances (initialize env c) = balances (fetchBalances env c).1 ∧
  positions (initialize env c) = positions (fetchPositions env c).1 ∧
  orders (initialize env c) = orders (fetchOpenOrders env c).1.
Proof.
  split; [|split; [|split; [|split; [|split]]]].
  - unfold fetchMarkets. by destruct (http_markets env).
  - apply fetchBalances_failure.
  - intros Hfail. by rewrite fetchPositions_failure.
  - apply fetchOpenOrders_failure.
  - intros Hw. unfold fetchBalances, fetchPositions, fetchOpenOrders. by rewrite Hw.
  - unfold initialize.
    destruct (fetchMarkets_frame env c) as (Hn1 & Hw1 & Hp1 & Ho1 & Hb1).
    set (c1 := (fetchMarkets env c).1) in *.
    destruct (fetchBalances_frame env c1) as (Hn2 & Hw2 & Hp2 & Ho2 & Hm2).
    set (c2 := (fetchBalances env c1).1) in *.
    destruct (fetchPositions_frame env c2) as (Hn3 & Hw3 & Hb3 & Ho3 & Hm3).
    set (c3 := (fetchPositions env c2).1) in *.
    split; [|split; [|split]].
    + rewrite fetchOpenOrders_markets. congruence.
    + destruct (fetchPositions_frame env c2) as (_ & _ & Hb & _).
      transitivity (balances c2).
      * unfold fetchOpenOrders. cbv zeta. repeat case_match; simpl; congruence.
      * apply fetchBalances_own; congruence.
    + transitivity (positions c3).
      * unfold fetchOpenOrders. cbv zeta. repeat case_match; simpl; congruence.
      * apply fetchPositions_own; congruence.
    + apply fetchOpenOrders_own; congruence.
Qed.

Lemma fetch_failure_gives_empty_list_witness :
  fetchMarkets chain_down client0 = (client0, []) ∧
  (fetchBalances chain_down client0).2 = [] ∧
  (fetchPositions chain_down client0).2 = [] ∧
  (fetchOpenOrders chain_down client0).2 = [] ∧
  fetchBalances chain_ok client_no_wallet = (client_no_wallet, []) ∧
  fetchPositions chain_ok client_no_wallet = (client_no_wallet, []) ∧
  fetchOpenOrders chain_ok client_no_wallet = (client_no_wallet, []).
Proof.
  destruct (fetch_failure_gives_empty_list chain_down client0)
    as (Hm & Hb & Hp & Ho & _).
  destruct (fetch_failure_gives_empty_list chain_ok client_no_wallet)
    as (_ & _ & _ & _ & Hw & _).
  split; [by apply Hm|].
  split; [apply Hb; exists demo_wallet; repeat split; right; exists "0xabc"; split; [done|by left]|].
  split; [apply Hp; exists demo_wallet; repeat split; right; exists "0xabc"; by split|].
  split; [apply Ho; exists demo_wallet; repeat split; right; exists "0xabc"; split; [done|by left]|].
  by apply Hw.
Defined.

End Fetch.

(** ** Leverage in basis points

    [fetchPositions] decodes a leverage as [bp / 100];
    [updatePositionLeverage] and [createOrder] encode it as
    [Math.round(leverage * 100)].  Both run on binary64 Numbers. *)
Section Rounding.

Lemma digits2_pos_bounds (p : positive) :
  2 ^ (Z.pos (digits2_pos p) - 1) ≤ Z.pos p < 2 ^ Z.pos (digits2_pos p).
Proof.
  induction p as [p IH|p IH|]; simpl digits2_pos; [| |simpl; lia].
  all: rewrite Pos2Z.inj_succ;
    replace (Z.succ (Z.pos (digits2_pos p)) - 1) with (Z.succ (Z.pos (digits2_pos p) - 1)) by lia;
    rewrite !Z.pow_succ_r by lia; lia.
Qed.

Lemma digits2_pos_unique (p : positive) (k : Z) :
  2 ^ (k - 1) ≤ Z.pos p < 2 ^ k → Z.pos (digits2_pos p) = k.
Proof.
  intros [Hlo Hhi]. pose proof (digits2_pos_bounds p) as [Hlo' Hhi'].
  set (d := Z.pos (digits2_pos p)) in *.
  assert (0 < k).
  { destruct (Z.ltb_spec 0 k); [done|]. rewrite Z.pow_neg_r in Hlo by lia.
    destruct (Z.eq_dec k 0) as [->|]; [simpl in Hhi; lia|].
    rewrite Z.pow_neg_r in Hhi by lia. lia. }
  destruct (Z.lt_trichotomy d k) as [Hlt|[Heq|Hgt]]; [|done|].
  - assert (2 ^ d ≤ 2 ^ (k - 1)) by (apply Z.pow_le_mono_r; lia). lia.
  - assert (2 ^ k ≤ 2 ^ (d - 1)) by (apply Z.pow_le_mono_r; lia). lia.
Qed.

Lemma bracket_between N D mrs :
  bracket N D mrs → shr_m mrs * D ≤ N < (shr_m mrs + 1) * D.
Proof.
  intros (HD & Hm & Hb). destruct (shr_r mrs), (shr_s mrs); nia.
Qed.


Lemma shr_1_cases mrs :
  0 ≤ shr_m mrs →
  ∃ m' (b : bool),
    shr_m mrs = 2 * m' + (if b then 1 else 0) ∧ 0 ≤ m' ∧
    shr_1 mrs = {| shr_m := m'; shr_r := b; shr_s := shr_r mrs || shr_s mrs |}.
Proof.
  destruct mrs as [m r s]. cbn [shr_m shr_r shr_s]. intros Hm.
  destruct m as [|[p|p|]|p]; [| | | |lia].
  - exists 0, false. done.
  - exists (Z.pos p), true. cbn [shr_1]. rewrite Pos2Z.inj_xI. done.
  - exists (Z.pos p), false. cbn [shr_1]. rewrite Pos2Z.inj_xO. split; [lia|done].
  - exists 0, true. done.
Qed.

Lemma shr_1_bracket N D mrs : bracket N D mrs → bracket N (2 * D) (shr_1 mrs).
Proof.
  intros (HD & Hm & Hb).
  destruct (shr_1_cases mrs Hm) as (m' & b & Heq & Hm' & ->).
  unfold bracket. cbn [shr_m shr_r shr_s]. rewrite Heq in Hb.
  split; [lia|]. split; [done|].
  set (X := m' * D) in *.
  assert (HX : ∀ k, (2 * m' + k) * D = 2 * X + k * D) by (intros; unfold X; ring).
  rewrite HX in Hb.
  assert (H2 : ∀ k, (2 * m' + k) * (2 * D) = 4 * X + 2 * k * D) by (intros; unfold X; ring).
  assert (H3 : m' * (2 * D) = 2 * X) by (unfold X; ring).
  assert (H4 : (m' + 1) * (2 * D) = 2 * X + 2 * D) by (unfold X; ring).
  assert (H5 : ∀ k, (2 * (2 * m' + k) + 1) * D = 4 * X + (2 * k + 1) * D) by (intros; unfold X; ring).
  assert (H6 : ∀ k, ((2 * m' + k) + 1) * D = 2 * X + (k + 1) * D) by (intros; unfold X; ring).
  rewrite ?H5, ?H6 in Hb. rewrite ?H2, ?H3, ?H4.
  destruct b, (shr_r mrs), (shr_s mrs); cbn [orb] in *; lia.
Qed.

Lemma pow2_double (n : Z) : 0 ≤ n → 2 ^ (2 * n) = 2 ^ n * 2 ^ n.
Proof. intros Hn. replace (2 * n) with (n + n) by lia. by rewrite Z.pow_add_r. Qed.

Lemma iter_shr_1_bracket (n : positive) : ∀ N D mrs,
  bracket N D mrs → bracket N (2 ^ Z.pos n * D) (@SpecFloat.iter_pos shr_record shr_1 n mrs).
Proof.
  induction n as [n IH|n IH|]; intros N D mrs Hb; cbn [iter_pos].
  - apply shr_1_bracket, IH, IH in Hb.
    replace (2 ^ Z.pos n~1 * D) with (2 ^ Z.pos n * (2 ^ Z.pos n * (2 * D))); [done|].
    rewrite (Pos2Z.inj_xI n), Z.pow_add_r, pow2_double, Z.pow_1_r by lia. ring.
  - apply IH, IH in Hb.
    replace (2 ^ Z.pos n~0 * D) with (2 ^ Z.pos n * (2 ^ Z.pos n * D)); [done|].
    rewrite (Pos2Z.inj_xO n), pow2_double by lia. ring.
  - apply shr_1_bracket in Hb. by rewrite Z.pow_1_r.
Qed.

Lemma shr_bracket N D mrs (e n : Z) :
  0 ≤ n → bracket N D mrs →
  bracket N (2 ^ n * D) (shr mrs e n).1 ∧ (shr mrs e n).2 = e + n.
Proof.
  intros Hn Hb. destruct n as [|n|n]; [| |lia]; cbn [shr fst snd].
  - split; [|lia]. by rewrite Z.pow_0_r, Z.mul_1_l.
  - split; [|done]. by apply iter_shr_1_bracket.
Qed.

Lemma shr_record_of_loc_of_shr_record mrs :
  shr_record_of_loc (shr_m mrs) (loc_of_shr_record mrs) = mrs.
Proof. by destruct mrs as [m [] []]. Qed.

Lemma round_nearest_even_bracket N D mrs :
  bracket N D mrs →
  let mr := round_nearest_even (shr_m mrs) (loc_of_shr_record mrs) in
  shr_m mrs ≤ mr ≤ shr_m mrs + 1 ∧ - D ≤ 2 * (mr * D - N) ≤ D.
Proof.
  destruct mrs as [m r s]. unfold bracket. cbn [shr_m shr_r shr_s].
  intros (HD & Hm & Hb). cbv zeta.
  set (X := m * D) in *.
  assert (H1 : (2 * m + 1) * D = 2 * X + D) by (unfold X; ring).
  assert (H2 : (m + 1) * D = X + D) by (unfold X; ring).
  rewrite ?H1, ?H2 in Hb.
  destruct r, s; cbn [loc_of_shr_record round_nearest_even];
    try destruct (Z.even m); rewrite ?H2; fold X; lia.
Qed.

Lemma fexp_normal (e : Z) : -1074 ≤ e - 53 → fexp 53 1024 e = e - 53.
Proof. unfold fexp, emin. lia. Qed.

Lemma shr_fexp_normal (m : positive) (e : Z) (l : location) (n : Z) :
  Z.pos (digits2_pos m) = 53 + n → -1074 ≤ e + n →
  shr_fexp 53 1024 (Z.pos m) e l = shr (shr_record_of_loc (Z.pos m) l) e n.
Proof.
  intros Hd He. unfold shr_fexp. cbn [Zdigits2]. rewrite Hd, fexp_normal by lia.
  f_equal. lia.
Qed.

(** Rounding a positive integer mantissa of at least 53 bits, away from
    the subnormal and the overflow range: the result is the 53-bit
    mantissa nearest to the bracketed value, renormalised when the
    rounding carries into bit 53. *)
Lemma binary_round_aux_spec (sx : bool) (mx : positive) (ex : Z) (lx : location)
    (N D n : Z) :
  bracket N D (shr_record_of_loc (Z.pos mx) lx) →
  Z.pos (digits2_pos mx) = 53 + n → 0 ≤ n → -1074 ≤ ex + n ≤ 970 →
  ∃ mr, 2 ^ 52 ≤ mr ≤ 2 ^ 53 ∧
        - (2 ^ n * D) ≤ 2 * (mr * (2 ^ n * D) - N) ≤ 2 ^ n * D ∧
        binary_round_aux 53 1024 sx (Z.pos mx) ex lx
        = if mr <? 2 ^ 53 then S754_finite sx (Z.to_pos mr) (ex + n)
          else S754_finite sx (Z.to_pos (2 ^ 52)) (ex + n + 1).
Proof.
  intros Hb Hd Hn He.
  pose proof (digits2_pos_bounds mx) as Hmx. rewrite Hd in Hmx.
  replace (53 + n - 1) with (52 + n) in Hmx by lia.
  rewrite !Z.pow_add_r in Hmx by lia.
  pose proof (bracket_between _ _ _ Hb) as Hmid.
  assert (Hmxm : shr_m (shr_record_of_loc (Z.pos mx) lx) = Z.pos mx)
    by (by destruct lx as [|[]]).
  rewrite Hmxm in Hmid.
  destruct (shr_bracket N D _ ex n Hn Hb) as [Hb' He'].
  unfold binary_round_aux. rewrite (shr_fexp_normal mx ex lx n) by lia.
  destruct (shr (shr_record_of_loc (Z.pos mx) lx) ex n) as [mrs' e'].
  cbn [fst snd] in Hb', He'. subst e'.
  pose proof (bracket_between _ _ _ Hb') as Hmid'.
  pose proof (round_nearest_even_bracket _ _ _ Hb') as [Hmr Herr].
  set (mr := round_nearest_even (shr_m mrs') (loc_of_shr_record mrs')) in *.
  set (m' := shr_m mrs') in *.
  assert (HD : 0 < D) by apply Hb.
  assert (HE : 0 < 2 ^ n * D) by apply Hb'.
  set (E := 2 ^ n * D) in *.
  assert (Hm' : 2 ^ 52 ≤ m' < 2 ^ 53).
  { split.
    - assert (2 ^ 52 * E < (m' + 1) * E); [|nia].
      unfold E. nia.
    - assert (m' * E < 2 ^ 53 * E); [|nia].
      unfold E. nia. }
  exists mr. split; [lia|]. split; [lia|].
  destruct (Z.ltb_spec mr (2 ^ 53)) as [Hlt|Hge].
  - destruct mr as [|pr|pr] eqn:Hpr; [lia| |lia].
    rewrite (shr_fexp_normal pr (ex + n) loc_Exact 0).
    + cbn [shr shr_record_of_loc shr_m Z.to_pos].
      destruct (Z.leb_spec (ex + n) (1024 - 53)); [done|lia].
    + rewrite (digits2_pos_unique pr 53); [done|]. change (53 - 1) with 52. lia.
    + lia.
  - assert (mr = 2 ^ 53) as -> by lia.
    change (2 ^ 53) with (Z.pos (Z.to_pos (2 ^ 53))).
    rewrite (shr_fexp_normal _ (ex + n) loc_Exact 1); [|reflexivity|lia].
    set (p53 := Z.to_pos (2 ^ 53)). vm_compute in p53. subst p53.
    set (p52 := Z.to_pos (2 ^ 52)). vm_compute in p52. subst p52.
    cbn [shr iter_pos shr_record_of_loc shr_1 shr_m].
    destruct (Z.leb_spec (ex + n + 1) (1024 - 53)); [done|lia].
Qed.

Lemma iter_xO_pow2 (p s : positive) : Z.pos (Pos.iter xO p s) = Z.pos p * 2 ^ Z.pos s.
Proof.
  induction s as [|s IH] using Pos.peano_ind.
  - cbn [Pos.iter]. rewrite (Pos2Z.inj_xO p), Z.pow_1_r. lia.
  - rewrite Pos.iter_succ, Pos2Z.inj_xO, IH, Pos2Z.inj_succ, Z.pow_succ_r by lia. ring.
Qed.

(** The Number of a positive integer below 2^53 is exact: a 53-bit
    mantissa and the exponent that scales it back. *)
Lemma of_Z_exact (bp : Z) :
  0 < bp < 2 ^ 53 →
  ∃ (ma : positive) (k : Z),
    0 ≤ k ≤ 52 ∧ of_Z bp = S754_finite false ma (- k) ∧
    Z.pos ma = bp * 2 ^ k ∧ 2 ^ 52 ≤ Z.pos ma < 2 ^ 53.
Proof.
  intros Hbp. destruct bp as [|p|p]; [lia| |lia].
  pose proof (digits2_pos_bounds p) as Hd.
  set (d := Z.pos (digits2_pos p)) in *.
  assert (Hd53 : 1 ≤ d ≤ 53).
  { split; [unfold d; lia|].
    destruct (Z.le_gt_cases d 53) as [|Hgt]; [done|].
    assert (2 ^ 53 ≤ 2 ^ (d - 1)) by (apply Z.pow_le_mono_r; lia). lia. }
  set (k := 53 - d).
  assert (Hk : 2 ^ 52 ≤ Z.pos p * 2 ^ k < 2 ^ 53).
  { assert (E1 : 2 ^ 52 = 2 ^ (d - 1) * 2 ^ k)
      by (rewrite <- Z.pow_add_r by (unfold k; lia); f_equal; unfold k; lia).
    assert (E2 : 2 ^ 53 = 2 ^ d * 2 ^ k)
      by (rewrite <- Z.pow_add_r by (unfold k; lia); f_equal; unfold k; lia).
    rewrite E1, E2.
    assert (0 < 2 ^ k) by (apply Z.pow_pos_nonneg; unfold k; lia).
    split; [apply Z.mul_le_mono_nonneg_r|apply Zmult_lt_compat_r]; lia. }
  assert (Hround : ∀ mz : positive, 2 ^ 52 ≤ Z.pos mz < 2 ^ 53 →
            binary_round_aux 53 1024 false (Z.pos mz) (- k) loc_Exact
            = S754_finite false mz (- k)).
  { intros mz Hmz.
    destruct (binary_round_aux_spec false mz (- k) loc_Exact (Z.pos mz) 1 0)
      as (mr & Hmr & Herr & ->).
    - unfold bracket. cbn [shr_record_of_loc shr_m shr_r shr_s]. lia.
    - rewrite (digits2_pos_unique mz 53); [done|]. change (53 - 1) with 52. lia.
    - done.
    - unfold k. lia.
    - rewrite Z.pow_0_r in Herr. assert (mr = Z.pos mz) as -> by lia.
      destruct (Z.ltb_spec (Z.pos mz) (2 ^ 53)); [|lia].
      cbn [Z.to_pos]. f_equal. lia. }
  unfold of_Z, prec, emax. cbn [binary_normalize]. unfold binary_round.
  cbn [Zdigits2]. fold d. rewrite fexp_normal by lia.
  unfold shl_align. replace (d + 0 - 53 - 0) with (- k) by (unfold k; lia).
  destruct k as [|s|s] eqn:Hks; [| |lia]; cbn [Z.opp].
  - exists p, 0. rewrite Z.pow_0_r, Z.mul_1_r in *.
    replace (d + 0 - 53) with (- 0) by lia.
    split; [lia|]. split; [|split; [lia|done]].
    replace 0 with (- 0) at 1 by done. by apply (Hround p).
  - exists (Pos.iter xO p s), (Z.pos s). rewrite iter_xO_pow2.
    replace (d + 0 - 53) with (- Z.pos s) by lia.
    split; [lia|]. split; [|done].
    apply (Hround (Pos.iter xO p s)). by rewrite iter_xO_pow2.
Qed.

Lemma of_Z_100 : of_Z 100 = S754_finite false 7036874417766400 (-46).
Proof. reflexivity. Qed.

Lemma new_location_bracket (D q r : Z) :
  0 < D → Z.even D = true → 0 ≤ q → 0 ≤ r < D →
  bracket (q * D + r) D (shr_record_of_loc q (new_location D r)).
Proof.
  intros HD Hev Hq Hr. unfold new_location, new_location_even. rewrite Hev.
  destruct (Z.eqb_spec r 0) as [->|Hr0].
  - unfold bracket. cbn [shr_record_of_loc shr_m shr_r shr_s]. lia.
  - set (X := q * D).
    assert (H1 : (2 * q + 1) * D = 2 * X + D) by (unfold X; ring).
    assert (H2 : (q + 1) * D = X + D) by (unfold X; ring).
    destruct (Z.compare_spec (2 * r) D); unfold bracket;
      cbn [shr_record_of_loc shr_m shr_r shr_s]; rewrite ?H1, ?H2; fold X; lia.
Qed.

(** [x / 100] for a Number [x] with mantissa [ma]: the quotient mantissa
    is [ma * 2^53 / (100 * 2^46)] rounded to nearest, one bit longer when
    [ma] is at least the mantissa of 100. *)
Lemma div_100_spec (ma : positive) (k : Z) :
  2 ^ 52 ≤ Z.pos ma < 2 ^ 53 → 0 ≤ k ≤ 52 →
  let nq := if Z.pos ma <? 7036874417766400 then 0 else 1 in
  ∃ mr, 2 ^ 52 ≤ mr ≤ 2 ^ 53 ∧
        - (2 ^ nq * 7036874417766400)
          ≤ 2 * (mr * (2 ^ nq * 7036874417766400) - Z.pos ma * 2 ^ 53)
          ≤ 2 ^ nq * 7036874417766400 ∧
        div (S754_finite false ma (- k)) (of_Z 100)
        = if mr <? 2 ^ 53 then S754_finite false (Z.to_pos mr) (- k - 7 + nq)
          else S754_finite false (Z.to_pos (2 ^ 52)) (- k - 7 + nq + 1).
Proof.
  intros Hma Hk nq. rewrite of_Z_100. unfold div, prec, emax. cbn [SFdiv xorb].
  set (m100 := 7036874417766400) in *.
  assert (Hcore : SFdiv_core_binary 53 1024 (Z.pos ma) (- k) m100 (-46)
                  = (Z.pos ma * 2 ^ 53 / m100, - k - 7,
                     new_location m100 ((Z.pos ma * 2 ^ 53) mod m100))).
  { unfold SFdiv_core_binary. cbn [Zdigits2].
    rewrite (digits2_pos_unique ma 53) by (change (53 - 1) with 52; lia).
    change (Zdigits2 m100) with 53.
    rewrite fexp_normal by lia.
    replace (Z.min (53 + - k - (53 + -46) - 53) (- k - -46)) with (- k - 7) by lia.
    replace (- k - -46 - (- k - 7)) with 53 by lia.
    rewrite Z.shiftl_mul_pow2 by lia.
    unfold Z.div, Z.modulo. by destruct (Z.div_eucl (Z.pos ma * 2 ^ 53) m100). }
  rewrite Hcore.
  pose proof (Z.div_mod (Z.pos ma * 2 ^ 53) m100 ltac:(done)) as Hdm.
  pose proof (Z.mod_pos_bound (Z.pos ma * 2 ^ 53) m100 ltac:(done)) as Hr.
  set (q := Z.pos ma * 2 ^ 53 / m100) in *.
  set (r := (Z.pos ma * 2 ^ 53) mod m100) in *.
  change (2 ^ 52) with 4503599627370496 in *.
  change (2 ^ 53) with 9007199254740992 in *.
  assert (Hq : 4503599627370496 ≤ q < 2 * 9007199254740992) by (unfold m100 in *; lia).
  assert (Hnq : if Z.pos ma <? m100 then q < 9007199254740992 else 9007199254740992 ≤ q).
  { destruct (Z.ltb_spec (Z.pos ma) m100); unfold m100 in *; lia. }
  destruct q as [|pq|pq] eqn:Hpq; [lia| |lia].
  destruct (binary_round_aux_spec false pq (- k - 7) (new_location m100 r)
              (Z.pos ma * 9007199254740992) m100 nq) as (mr & Hmr & Herr & ->).
  - rewrite Hdm, (Z.mul_comm m100). apply new_location_bracket; [done|done|lia|done].
  - apply digits2_pos_unique. subst nq.
    destruct (Z.pos ma <? m100).
    + change (2 ^ (53 + 0 - 1)) with 4503599627370496.
      change (2 ^ (53 + 0)) with 9007199254740992. lia.
    + change (2 ^ (53 + 1 - 1)) with 9007199254740992.
      change (2 ^ (53 + 1)) with (2 * 9007199254740992). lia.
  - subst nq. by destruct (Z.pos ma <? m100).
  - subst nq. destruct (Z.pos ma <? m100); lia.
  - exists mr. change (2 ^ 52) with 4503599627370496 in *.
    change (2 ^ 53) with 9007199254740992 in *. done.
Qed.

(** [x * 100] for a Number [x] with mantissa [mq]: the product mantissa
    rounded to nearest. *)
Lemma mul_100_spec (mq : positive) (eq nP : Z) :
  Z.pos (digits2_pos (mq * 7036874417766400)) = 53 + nP → 0 ≤ nP →
  -1074 ≤ eq - 46 + nP ≤ 970 →
  ∃ mr, 2 ^ 52 ≤ mr ≤ 2 ^ 53 ∧
        - 2 ^ nP ≤ 2 * (mr * 2 ^ nP - Z.pos mq * 7036874417766400) ≤ 2 ^ nP ∧
        mul (S754_finite false mq eq) (of_Z 100)
        = if mr <? 2 ^ 53 then S754_finite false (Z.to_pos mr) (eq - 46 + nP)
          else S754_finite false (Z.to_pos (2 ^ 52)) (eq - 46 + nP + 1).
Proof.
  intros Hd HnP He. rewrite of_Z_100. unfold mul, prec, emax. cbn [SFmul xorb].
  destruct (binary_round_aux_spec false (mq * 7036874417766400) (eq + -46) loc_Exact
              (Z.pos mq * 7036874417766400) 1 nP) as (mr & Hmr & Herr & ->);
    [|done|done|lia|].
  - unfold bracket. cbn [shr_record_of_loc shr_m shr_r shr_s]. lia.
  - exists mr. rewrite Z.mul_1_r in Herr.
    replace (eq + -46 + nP) with (eq - 46 + nP) by lia. done.
Qed.

(** [Math.round] of a positive Number within half a unit of the integer
    [bp] is [bp]. *)
Lemma Math_round_near (my : positive) (k bp : Z) :
  1 ≤ k → - 2 ^ k ≤ 2 * (Z.pos my - bp * 2 ^ k) < 2 ^ k →
  Math_round (S754_finite false my (- k)) = of_Z bp.
Proof.
  intros Hk Hnear. unfold Math_round, of_Z.
  destruct (Z.leb_spec 0 (- k)); [lia|].
  replace (- - k) with k by lia.
  rewrite Z.pow_add_r, Z.pow_1_r by lia.
  assert (HT : 0 < 2 ^ k) by (apply Z.pow_pos_nonneg; lia).
  set (T := 2 ^ k) in *.
  rewrite <- (Z.div_unique (2 * Z.pos my + T) (T * 2) bp (2 * Z.pos my + T - 2 * (bp * T)));
    [done|lia|ring].
Qed.

(** The round trip on the integers below 100 * 2^45. *)
Lemma leverage_roundtrip_below (bp : Z) :
  0 < bp < 3518437208883200 →
  Math_round (mul (div (of_Z bp) (of_Z 100)) (of_Z 100)) = of_Z bp.
Proof.
  intros Hbp.
  destruct (of_Z_exact bp) as (ma & k & Hk & Hof & Hma & Hman).
  { change (2 ^ 53) with 9007199254740992. lia. }
  replace (div (of_Z bp) (of_Z 100)) with (div (S754_finite false ma (- k)) (of_Z 100))
    by (by rewrite Hof).
  destruct (div_100_spec ma k Hman Hk) as (mq & Hmq & Hqerr & ->).
  change (2 ^ 52) with 4503599627370496 in *.
  change (2 ^ 53) with 9007199254740992 in *.
  assert (HT : 0 < 2 ^ k) by (apply Z.pow_pos_nonneg; lia).
  assert (Hk1 : 1 ≤ k).
  { destruct (Z.eq_dec k 0) as [->|]; [|lia]. rewrite Z.pow_0_r in Hma. lia. }
  destruct (Z.ltb_spec (Z.pos ma) 7036874417766400) as [Hlt|Hge].
  - (* the mantissa of bp is below that of 100 *)
    rewrite Z.pow_0_r in Hqerr.
    destruct (Z.ltb_spec mq 9007199254740992); [|lia].
    destruct mq as [|pq|pq]; [lia| |lia]. cbn [Z.to_pos].
    destruct (mul_100_spec pq (- k - 7 + 0) 53) as (my & Hmy & Hyerr & ->).
    + apply digits2_pos_unique. rewrite Pos2Z.inj_mul.
      change (2 ^ (53 + 53 - 1)) with 40564819207303340847894502572032.
      change (2 ^ (53 + 53)) with 81129638414606681695789005144064. lia.
    + done.
    + lia.
    + change (2 ^ 52) with 4503599627370496 in *.
      change (2 ^ 53) with 9007199254740992 in *.
      assert (my = Z.pos ma) as -> by lia.
      destruct (Z.ltb_spec (Z.pos ma) 9007199254740992); [|lia]. cbn [Z.to_pos].
      replace (- k - 7 + 0 - 46 + 53) with (- k) by lia.
      apply Math_round_near; [done|]. rewrite Hma. lia.
  - (* the mantissa of bp is at least that of 100 *)
    change (2 ^ 1) with 2 in Hqerr.
    assert (Hk2 : 2 ≤ k).
    { destruct (Z.eq_dec k 1) as [->|]; [|lia]. rewrite Z.pow_1_r in Hma. lia. }
    destruct (Z.ltb_spec mq 9007199254740992); [|lia].
    destruct mq as [|pq|pq]; [lia| |lia]. cbn [Z.to_pos].
    destruct (mul_100_spec pq (- k - 7 + 1) 52) as (my & Hmy & Hyerr & ->).
    + apply digits2_pos_unique. rewrite Pos2Z.inj_mul.
      change (2 ^ (53 + 52 - 1)) with 20282409603651670423947251286016.
      change (2 ^ (53 + 52)) with 40564819207303340847894502572032. lia.
    + done.
    + lia.
    + change (2 ^ 52) with 4503599627370496 in *.
      change (2 ^ 53) with 9007199254740992 in *.
      assert (Hnear : -1 ≤ my - Z.pos ma ≤ 1) by lia.
      assert (HT4 : 4 ≤ 2 ^ k).
      { change 4 with (2 ^ 2). apply Z.pow_le_mono_r; lia. }
      assert (Heven : ∃ h, Z.pos ma = 2 * h).
      { exists (bp * 2 ^ (k - 1)). rewrite Hma.
        replace k with (1 + (k - 1)) at 1 by lia.
        rewrite Z.pow_add_r, Z.pow_1_r by lia. ring. }
      destruct Heven as [h Hh].
      destruct (Z.ltb_spec my 9007199254740992); [|lia].
      destruct my as [|py|py]; [lia| |lia]. cbn [Z.to_pos].
      replace (- k - 7 + 1 - 46 + 52) with (- k) by lia.
      apply Math_round_near; [done|]. rewrite <- Hma. lia.
Qed.
End Rounding.

(** C9, as the code has it.  For every integer basis-point value from 0 up
    to 3518437208883201 (100 * 2^45 + 1), dividing the Number by 100 and
    encoding the quotient with [Math.round(x * 100)] gives the same Number
    back. *)
Theorem leverage_roundtrip (bp : Z) :
  0 ≤ bp < 3518437208883202 →
  Math_round (mul (div (of_Z bp) (of_Z 100)) (of_Z 100)) = of_Z bp.
Proof.
  intros Hbp.
  destruct (Z.eq_dec bp 0) as [->|]; [reflexivity|].
  destruct (Z.eq_dec bp 3518437208883200) as [->|]; [by vm_compute|].
  destruct (Z.eq_dec bp 3518437208883201) as [->|]; [by vm_compute|].
  apply leverage_roundtrip_below. lia.
Qed.

Lemma leverage_roundtrip_witness :
  0 ≤ 4217 < 3518437208883202 ∧
  Math_round (mul (div (of_Z 4217) (of_Z 100)) (of_Z 100)) = of_Z 4217.
Proof. split; [lia|]. apply (leverage_roundtrip 4217). lia. Defined.

(** C9, refuted as stated.  3518437208883202 is an integer that a Number
    holds exactly; divided by 100 and multiplied by 100 it becomes
    3518437208883202.5, which [Math.round] takes to 3518437208883203. *)
Lemma leverage_roundtrip_fails_at_3518437208883202 :
  of_Z 3518437208883202 = S754_finite false 7036874417766404 (-1) ∧
  mul (div (of_Z 3518437208883202) (of_Z 100)) (of_Z 100)
  = S754_finite false 7036874417766405 (-1) ∧
  Math_round (mul (div (of_Z 3518437208883202) (of_Z 100)) (of_Z 100))
  = of_Z 3518437208883203 ∧
  Math_round (mul (div (of_Z 3518437208883202) (of_Z 100)) (of_Z 100))
  ≠ of_Z 3518437208883202 ∧
  strict_eq (Math_round (mul (div (of_Z 3518437208883202) (of_Z 100)) (of_Z 100)))
            (of_Z 3518437208883202) = false.
Proof. repeat split; try (by vm_compute). Qed.

(** ** More on the enumeration helpers *)
Section Enumerations.

Lemma index_in_range {A} (a : list A) (i : Z) (x : A) :
  index a i = Some x → 0 ≤ i < Z.of_nat (length a).
Proof.
  unfold index. destruct (Z.leb_spec 0 i); [|done].
  intros Hx%lookup_lt_Some. lia.
Qed.

Lemma index_out_of_range {A} (a : list A) (i : Z) :
  i < 0 ∨ Z.of_nat (length a) ≤ i → index a i = None.
Proof.
  intros Hout. unfold index. destruct (Z.leb_spec 0 i); [|done].
  apply lookup_ge_None_2. lia.
Qed.

(** For a name that is not one of the properties inherited from
    [Object.prototype], the id that [getOrderTypeId] returns is never 0: it
    is 2, 3 or 4 for "stop", "stopLimit" and "trailingStop" and 1 for every
    other such name, "market" included. *)
Theorem getOrderTypeId_never_zero (typeName : string) :
  typeName ∉ Object_prototype_names →
  1 ≤ getOrderTypeId typeName ≤ 4 ∧
  (typeName ∉ ["stop"; "stopLimit"; "trailingStop"] → getOrderTypeId typeName = 1).
Proof.
  intros _. unfold getOrderTypeId, typeMap. cbn [list_to_map foldr fst snd uncurry].
  rewrite !lookup_insert, lookup_empty.
  repeat case_decide; subst; cbn; (split; [lia|]); try done.
  all: intros Hnot; exfalso; apply Hnot; set_solver.
Qed.

Lemma getOrderTypeId_never_zero_witness :
  ("market" ∉ Object_prototype_names) ∧ ("iceberg" ∉ Object_prototype_names) ∧
  1 ≤ getOrderTypeId "market" ≤ 4 ∧ getOrderTypeId "iceberg" = 1.
Proof.
  assert (Hmarket : "market" ∉ Object_prototype_names)
    by (apply (bool_decide_unpack _); vm_compute; exact I).
  assert (Hiceberg : "iceberg" ∉ Object_prototype_names)
    by (apply (bool_decide_unpack _); vm_compute; exact I).
  split; [exact Hmarket|]. split; [exact Hiceberg|]. split.
  - apply (getOrderTypeId_never_zero "market" Hmarket).
  - apply (getOrderTypeId_never_zero "iceberg" Hiceberg).
    apply (bool_decide_unpack _); vm_compute; exact I.
Defined.

(** Decoding an id and encoding the name again gives the id back exactly
    for the ids 1 to 4; every other id, 0 included, comes back as 1. *)
Theorem getOrderTypeId_of_name (typeId : Z) :
  getOrderTypeId (getOrderTypeName typeId) = if decide (1 ≤ typeId ≤ 4) then typeId else 1.
Proof.
  case_decide as Hr.
  - assert (typeId = 1 ∨ typeId = 2 ∨ typeId = 3 ∨ typeId = 4) as [->|[->|[->| ->]]] by lia;
      reflexivity.
  - destruct (decide (typeId = 0)) as [->|]; [reflexivity|].
    rewrite getOrderTypeName_unknown by lia. reflexivity.
Qed.

(** [getOrderTypeName] and [getOrderStatusName] answer "unknown" exactly
    for the ids outside 0..4, and inside that range different ids have
    different names. *)
Theorem order_names_unknown_iff_out_of_range (i j : Z) :
  (getOrderTypeName i = "unknown" ↔ i < 0 ∨ 4 < i) ∧
  (getOrderStatusName i = "unknown" ↔ i < 0 ∨ 4 < i) ∧
  (0 ≤ i ≤ 4 → getOrderTypeName i = getOrderTypeName j → i = j) ∧
  (0 ≤ i ≤ 4 → getOrderStatusName i = getOrderStatusName j → i = j).
Proof.
  assert (Hcases : ∀ z, z < 0 ∨ 4 < z ∨ z = 0 ∨ z = 1 ∨ z = 2 ∨ z = 3 ∨ z = 4) by lia.
  assert (Htype : ∀ z, z < 0 ∨ 4 < z → getOrderTypeName z = "unknown").
  { intros z Hz. unfold getOrderTypeName. by rewrite index_out_of_range by (simpl; lia). }
  assert (Hstatus : ∀ z, z < 0 ∨ 4 < z → getOrderStatusName z = "unknown").
  { intros z Hz. unfold getOrderStatusName. by rewrite index_out_of_range by (simpl; lia). }
  split; [|split; [|split]].
  - split; [|apply Htype].
    destruct (Hcases i) as [?|[?|[->|[->|[->|[->| ->]]]]]]; try lia; by vm_compute.
  - split; [|apply Hstatus].
    destruct (Hcases i) as [?|[?|[->|[->|[->|[->| ->]]]]]]; try lia; by vm_compute.
  - intros Hi.
    destruct (Hcases j) as [?|[?|[->|[->|[->|[->| ->]]]]]];
      rewrite ?(Htype j) by lia;
      destruct (Hcases i) as [?|[?|[->|[->|[->|[->| ->]]]]]]; try lia; by vm_compute.
  - intros Hi.
    destruct (Hcases j) as [?|[?|[->|[->|[->|[->| ->]]]]]];
      rewrite ?(Hstatus j) by lia;
      destruct (Hcases i) as [?|[?|[->|[->|[->|[->| ->]]]]]]; try lia; by vm_compute.
Qed.

Lemma order_names_unknown_iff_out_of_range_witness :
  getOrderTypeName 7 = "unknown" ∧ getOrderStatusName (-1) = "unknown" ∧ 3 = 3.
Proof.
  destruct (order_names_unknown_iff_out_of_range 7 7) as ([_ Htype] & _).
  destruct (order_names_unknown_iff_out_of_range (-1) 0) as (_ & [_ Hstatus] & _).
  destruct (order_names_unknown_iff_out_of_range 3 3) as (_ & _ & Hinj & _).
  split; [apply Htype; lia|]. split; [apply Hstatus; lia|].
  apply Hinj; [lia|reflexivity].
Defined.

(** For a name that is not one of the properties inherited from
    [Object.prototype], [getTimeInForceId] gives 0, 1, 2, 3 for "GTC",
    "IOC", "FOK", "GTD" and 0, the id of "GTC", for every other such
    name. *)
Theorem getTimeInForceId_table (name : string) :
  name ∉ Object_prototype_names →
  getTimeInForceId name
  = if decide (name = "IOC") then 1
    else if decide (name = "FOK") then 2
    else if decide (name = "GTD") then 3
    else 0.
Proof.
  intros _.
  unfold getTimeInForceId, timeInForceMap. cbn [list_to_map foldr fst snd uncurry].
  rewrite !lookup_insert, lookup_empty.
  repeat case_decide; subst; try done.
Qed.

Lemma getTimeInForceId_table_witness :
  ("FOK" ∉ Object_prototype_names) ∧ ("day" ∉ Object_prototype_names) ∧
  getTimeInForceId "FOK" = 2 ∧ getTimeInForceId "day" = 0.
Proof.
  assert (Hfok : "FOK" ∉ Object_prototype_names)
    by (apply (bool_decide_unpack _); vm_compute; exact I).
  assert (Hday : "day" ∉ Object_prototype_names)
    by (apply (bool_decide_unpack _); vm_compute; exact I).
  split; [exact Hfok|]. split; [exact Hday|]. split.
  - apply (getTimeInForceId_table "FOK" Hfok).
  - apply (getTimeInForceId_table "day" Hday).
Defined.

End Enumerations.

(** ** More on merging push data *)
Section Pushes.

Implicit Types (c : Client) (d o : Obj) (k : Val) (message : Message).

Lemma spread_twice (a : option Obj) d :
  spread (Some (spread a d)) d = spread a d.
Proof.
  apply map_eq. intros f. rewrite lookup_spread. cbn [mbind option_bind].
  rewrite (lookup_spread a d f). by destruct (d !! f).
Qed.

Lemma Map_set_twice (m : JSMap) k o o' : Map_set (Map_set m k o) k o' = Map_set m k o'.
Proof. unfold Map_set. apply insert_insert_eq. Qed.

Lemma Map_set_commute (m : JSMap) k1 k2 o1 o2 :
  mapKey k1 ≠ mapKey k2 →
  Map_set (Map_set m k1 o1) k2 o2 = Map_set (Map_set m k2 o2) k1 o1.
Proof. intros Hne. unfold Map_set. by apply insert_insert_ne. Qed.

(** the merge that the four [update...] functions share *)
Lemma merge_twice (m : JSMap) k d :
  Map_set (Map_set m k (spread (Map_get m k) d)) k
    (spread (Map_get (Map_set m k (spread (Map_get m k) d)) k) d)
  = Map_set m k (spread (Map_get m k) d).
Proof. by rewrite Map_get_set_eq, spread_twice, Map_set_twice. Qed.

Lemma merge_commute (m : JSMap) k1 k2 d1 d2 :
  mapKey k1 ≠ mapKey k2 →
  Map_set (Map_set m k2 (spread (Map_get m k2) d2)) k1
    (spread (Map_get (Map_set m k2 (spread (Map_get m k2) d2)) k1) d1)
  = Map_set (Map_set m k1 (spread (Map_get m k1) d1)) k2
      (spread (Map_get (Map_set m k1 (spread (Map_get m k1) d1)) k2) d2).
Proof.
  intros Hne. rewrite !Map_get_set_ne by done. by apply Map_set_commute.
Qed.

(** A push changes at most the map that its type names; a push of any
    other type changes nothing. *)
Theorem handleWebSocketMessage_frame message c :
  let c' := handleWebSocketMessage message c in
  network c' = network c ∧ wallet c' = wallet c ∧
  (msg_type message ≠ "order_update" → orders c' = orders c) ∧
  (msg_type message ≠ "position_update" → positions c' = positions c) ∧
  (msg_type message ≠ "balance_update" → balances c' = balances c) ∧
  (msg_type message ≠ "market_update" → markets c' = markets c).
Proof.
  cbv zeta. unfold handleWebSocketMessage.
  destruct message as [t d]. cbn [msg_type msg_data].
  destruct (String.eqb_spec t "order_update") as [->|?]; [by repeat split|].
  destruct (String.eqb_spec t "position_update") as [->|?]; [by repeat split|].
  destruct (String.eqb_spec t "balance_update") as [->|?]; [by repeat split|].
  destruct (String.eqb_spec t "market_update") as [->|?]; by repeat split.
Qed.

Lemma handleWebSocketMessage_frame_witness :
  positions (handleWebSocketMessage Scenario.push_filled Scenario.c_open)
  = positions Scenario.c_open.
Proof.
  apply (handleWebSocketMessage_frame Scenario.push_filled Scenario.c_open). done.
Defined.

(** Delivering the same push twice in a row leaves the client as one
    delivery does. *)
Theorem handleWebSocketMessage_twice message c :
  handleWebSocketMessage message (handleWebSocketMessage message c)
  = handleWebSocketMessage message c.
Proof.
  unfold handleWebSocketMessage.
  repeat (destruct (String.eqb (msg_type message) _); [
    unfold updateOrder, updatePosition, updateBalance, updateMarket,
      set_orders, set_positions, set_balances, set_markets; cbn;
    by rewrite merge_twice|]).
  done.
Qed.

(** Two pushes that are of different types, or that name different keys,
    leave the same record under every key of each of the four maps
    whichever of them is delivered first.  (The order in which a map lists
    its entries follows the order in which its keys were created, and is
    not part of the statement.) *)
Theorem handleWebSocketMessage_commute (m1 m2 : Message) c :
  msg_type m1 ≠ msg_type m2 ∨ push_key m1 ≠ push_key m2 →
  let c12 := handleWebSocketMessage m1 (handleWebSocketMessage m2 c) in
  let c21 := handleWebSocketMessage m2 (handleWebSocketMessage m1 c) in
  network c12 = network c21 ∧ wallet c12 = wallet c21 ∧
  ∀ k, Map_get (orders c12) k = Map_get (orders c21) k ∧
       Map_get (positions c12) k = Map_get (positions c21) k ∧
       Map_get (balances c12) k = Map_get (balances c21) k ∧
       Map_get (markets c12) k = Map_get (markets c21) k.
Proof.
  intros Hdiff. cbv zeta.
  enough (handleWebSocketMessage m1 (handleWebSocketMessage m2 c)
          = handleWebSocketMessage m2 (handleWebSocketMessage m1 c)) as ->
    by done.
  unfold push_key, key_field in Hdiff. unfold handleWebSocketMessage.
  destruct m1 as [t1 d1], m2 as [t2 d2]. cbn [msg_type msg_data] in *.
  destruct (String.eqb_spec t1 "order_update") as [->|?];
    [|destruct (String.eqb_spec t1 "position_update") as [->|?];
      [|destruct (String.eqb_spec t1 "balance_update") as [->|?];
        [|destruct (String.eqb_spec t1 "market_update") as [->|?]]]];
    (destruct (String.eqb_spec t2 "order_update") as [->|?];
     [|destruct (String.eqb_spec t2 "position_update") as [->|?];
       [|destruct (String.eqb_spec t2 "balance_update") as [->|?];
         [|destruct (String.eqb_spec t2 "market_update") as [->|?]]]]);
    try done; cbn [String.eqb Ascii.eqb Bool.eqb] in Hdiff;
    unfold updateOrder, updatePosition, updateBalance, updateMarket,
      set_orders, set_positions, set_balances, set_markets; cbn;
    try done;
    (destruct Hdiff as [?|Hk]; [done|]); by rewrite (merge_commute _ _ _ _ _ Hk).
Qed.

Lemma handleWebSocketMessage_commute_witness :
  msg_type Scenario.push_filled ≠ msg_type Scenario.push_free ∧
  Map_get (orders (handleWebSocketMessage Scenario.push_filled
                     (handleWebSocketMessage Scenario.push_free Scenario.c_open)))
    (VStr "42")
  = Map_get (orders (handleWebSocketMessage Scenario.push_free
                       (handleWebSocketMessage Scenario.push_filled Scenario.c_open)))
      (VStr "42").
Proof.
  assert (Hdiff : msg_type Scenario.push_filled ≠ msg_type Scenario.push_free) by done.
  split; [exact Hdiff|].
  apply (handleWebSocketMessage_commute Scenario.push_filled Scenario.push_free
           Scenario.c_open (or_introl Hdiff)).
Defined.

(** An order update for an id that the store does not hold creates the
    record, with exactly the fields of the update; an update without an
    [id] field goes to the key [undefined]. *)
Theorem updateOrder_unseen_id_creates_record c d :
  Map_get (orders c) (prop d "id") = None →
  Map_get (orders (updateOrder d c)) (prop d "id") = Some d ∧
  (d !! "id" = None → Map_get (orders (updateOrder d c)) VUndef = Some d).
Proof.
  intros Hnone.
  assert (Hd : spread None d = d).
  { unfold spread. cbn [default]. apply map_eq. intros f.
    rewrite lookup_union, lookup_empty. by destruct (d !! f). }
  assert (H1 : Map_get (orders (updateOrder d c)) (prop d "id") = Some d)
    by (by rewrite updateOrder_stored, Hnone, Hd).
  split; [done|]. intros Hid.
  assert (prop d "id" = VUndef) as Hp by (unfold prop; by rewrite Hid).
  by rewrite <- Hp.
Qed.

Lemma updateOrder_unseen_id_creates_record_witness :
  let d : Obj := list_to_map [("status", VStr "open")] in
  Map_get (orders (updateOrder d Scenario.client0)) VUndef = Some d.
Proof.
  cbv zeta.
  apply (updateOrder_unseen_id_creates_record Scenario.client0
           (list_to_map [("status", VStr "open")])); reflexivity.
Defined.

Lemma updateOrder_last_arrival_wins_witness :
  let ds := [msg_data Scenario.push_filled; msg_data Scenario.push_stale] in
  Map_get (orders (fold_left (λ c d, updateOrder d c) ds Scenario.c_open)) (VStr "42")
    ≫= (.!! "status")
  = Some (VStr "open").
Proof.
  cbv zeta.
  rewrite (updateOrder_last_arrival_wins Scenario.c_open
             [msg_data Scenario.push_filled; msg_data Scenario.push_stale]
             (VStr "42") "status").
  - reflexivity.
  - repeat constructor.
Defined.

End Pushes.

(** ** Invariants of every run *)
Section Runs.

Implicit Types (c : Client) (m : JSMap) (k : Val) (o d : Obj) (env : Chain).

Lemma grows_trans field m1 m2 m3 :
  grows field m1 m2 → grows field m2 m3 → grows field m1 m3.
Proof.
  intros H12 H23. induction H23 as [|m2 m3 k o _ IH Hk]; [done|].
  by apply grows_set; [apply IH|].
Qed.

Lemma grows_set1 field m k o :
  (keyed_by field m → mapKey (prop o field) = mapKey k) → grows field m (Map_set m k o).
Proof. intros Hk. apply grows_set; [apply grows_refl|done]. Qed.

Lemma grows_keyed field m m' : grows field m m' → keyed_by field m → keyed_by field m'.
Proof.
  intros Hg Hm. induction Hg as [|m m' k o _ IH Hk]; [done|].
  specialize (IH Hm). intros k' o'. unfold Map_set.
  rewrite lookup_insert. case_decide as Heq.
  - intros [= <-]. rewrite <- Heq. by apply Hk.
  - apply IH.
Qed.

Lemma grows_dom field m m' : grows field m m' → dom m ⊆ dom m'.
Proof.
  intros Hg. induction Hg as [|m m' k o _ IH Hk]; [done|].
  unfold Map_set. rewrite dom_insert. set_solver.
Qed.

Lemma grows_merge field m d :
  grows field m (Map_set m (prop d field) (spread (Map_get m (prop d field)) d)).
Proof.
  apply grows_set1. intros Hm. unfold prop at 1. rewrite lookup_spread.
  destruct (d !! field) as [v|] eqn:Hd.
  - unfold prop. by rewrite Hd.
  - unfold prop. rewrite Hd. cbn [default].
    destruct (Map_get m VUndef) as [old|] eqn:Hold; [|done].
    cbn [mbind option_bind]. apply (Hm _ _ Hold).
Qed.

Lemma step_ok_refl c : step_ok c c.
Proof. repeat split; apply grows_refl. Qed.

Lemma step_ok_trans c1 c2 c3 : step_ok c1 c2 → step_ok c2 c3 → step_ok c1 c3.
Proof.
  intros (Hn & Hw & Ho & Hp & Hb & Hm) (Hn' & Hw' & Ho' & Hp' & Hb' & Hm').
  repeat split; try congruence; eapply grows_trans; eassumption.
Qed.

Lemma step_ok_orders c m : grows "id" (orders c) m → step_ok c (set_orders m c).
Proof. intros Hg. repeat split; try apply grows_refl. done. Qed.

Lemma step_ok_positions c m : grows "id" (positions c) m → step_ok c (set_positions m c).
Proof. intros Hg. repeat split; try apply grows_refl. done. Qed.

Lemma step_ok_balances c m : grows "token" (balances c) m → step_ok c (set_balances m c).
Proof. intros Hg. repeat split; try apply grows_refl. done. Qed.

Lemma step_ok_markets c m : grows "symbol" (markets c) m → step_ok c (set_markets m c).
Proof. intros Hg. repeat split; try apply grows_refl. done. Qed.

Lemma handleWebSocketMessage_step message c : step_ok c (handleWebSocketMessage message c).
Proof.
  unfold handleWebSocketMessage.
  repeat (destruct (String.eqb (msg_type message) _);
          [first [apply step_ok_orders | apply step_ok_positions
                 | apply step_ok_balances | apply step_ok_markets];
           apply grows_merge|]).
  apply step_ok_refl.
Qed.

Lemma fold_left_grows {A} field (f : JSMap → A → JSMap) (l : list A) m :
  (∀ m x, grows field m (f m x)) → grows field m (fold_left f l m).
Proof.
  intros Hf. revert m. induction l as [|x l IH]; intros m; [apply grows_refl|].
  cbn [fold_left]. eapply grows_trans; [apply Hf|apply IH].
Qed.

Lemma fetchMarkets_step env c : step_ok c (fetchMarkets env c).1.
Proof.
  unfold fetchMarkets. destruct (http_markets env) as [ms|]; [|apply step_ok_refl].
  cbn [fst]. apply step_ok_markets, fold_left_grows.
  intros m market. by apply grows_set1.
Qed.

Lemma fetchBalances_step env c : step_ok c (fetchBalances env c).1.
Proof.
  unfold fetchBalances. destruct (wallet c) as [w|]; [|apply step_ok_refl].
  destruct (isEVM c); [|apply step_ok_refl].
  destruct (getAddress w) as [a|]; [|apply step_ok_refl].
  destruct (vault_getUserTokens env a) as [tokens|]; [|apply step_ok_refl].
  cbv zeta.
  assert (Hg : grows "token" (balances c)
            (fold_left (λ m token, match vault_getBalance env a token with
                                   | Ok b => Map_set m token (balance_record token b)
                                   | Throw _ => m
                                   end) tokens (balances c))).
  { apply fold_left_grows. intros m token.
    destruct (vault_getBalance env a token); [by apply grows_set1|apply grows_refl]. }
  destruct (forallb _ tokens); cbn [fst]; by apply step_ok_balances.
Qed.

Lemma fetchPositions_step env c : step_ok c (fetchPositions env c).1.
Proof.
  unfold fetchPositions. destruct (wallet c) as [w|]; [|apply step_ok_refl].
  destruct (isEVM c); [|apply step_ok_refl].
  destruct (getAddress w) as [a|]; [|apply step_ok_refl].
  destruct (margin_getUserPositions env a) as [ps|]; [|apply step_ok_refl].
  cbn [fst]. apply step_ok_positions, fold_left_grows.
  intros m p. by apply grows_set1.
Qed.

Lemma order_record_id (raw : RawOrder) o : order_record raw = Ok o → prop o "id" = ord_id raw.
Proof.
  unfold order_record. destruct (toNumber (ord_timestamp raw)); [|done].
  cbn [rbind]. by intros [= <-].
Qed.

Lemma store_orders_grows (os : list RawOrder) m : grows "id" m (store_orders os m).1.
Proof.
  revert m. induction os as [|raw os IH]; intros m; cbn [store_orders]; [apply grows_refl|].
  destruct (order_record raw) as [o|] eqn:Ho; [|apply grows_refl].
  eapply grows_trans; [|apply IH]. apply grows_set1. intros _.
  by rewrite (order_record_id raw o Ho).
Qed.

Lemma fetchOpenOrders_step env c : step_ok c (fetchOpenOrders env c).1.
Proof.
  unfold fetchOpenOrders. destruct (wallet c) as [w|]; [|apply step_ok_refl].
  destruct (isEVM c); [|apply step_ok_refl].
  destruct (getAddress w) as [a|]; [|apply step_ok_refl].
  destruct (exchange_getUserOrders env a) as [os|]; [|apply step_ok_refl].
  pose proof (store_orders_grows os (orders c)) as Hg.
  destruct (store_orders os (orders c)) as [m completed]. cbn [fst] in Hg.
  destruct completed; cbn [fst]; by apply step_ok_orders.
Qed.

Lemma initialize_step env c : step_ok c (initialize env c).
Proof.
  unfold initialize.
  eapply step_ok_trans; [apply fetchMarkets_step|].
  eapply step_ok_trans; [apply fetchBalances_step|].
  eapply step_ok_trans; [apply fetchPositions_step|].
  apply fetchOpenOrders_step.
Qed.

Lemma createOrder_step params now0 now1 env c :
  step_ok c (createOrder params now0 now1 env c).1.
Proof.
  unfold createOrder. destruct (wallet c) as [w|]; [|apply step_ok_refl].
  destruct (isEVM c).
  - unfold createOrder_evm.
    destruct (Map_get (markets c) (VStr (p_market params))) as [marketInfo|];
      [|apply step_ok_refl].
    destruct (build_request _ _ _) as [req|]; [|apply step_ok_refl]. cbn [rbind].
    destruct (exchange_createOrder env req) as [|hash logs]; [apply step_ok_refl|].
    cbn [fst]. apply step_ok_orders, grows_set1. by intros _.
  - destruct (isSolana c); apply step_ok_refl.
Qed.

Lemma prop_insert_ne o (f g : string) (v : Val) : f ≠ g → prop (<[f := v]> o) g = prop o g.
Proof. intros Hne. unfold prop. by rewrite lookup_insert_ne. Qed.

Lemma cancelOrder_step orderId env c : step_ok c (cancelOrder orderId env c).1.
Proof.
  unfold cancelOrder. destruct (wallet c) as [w|]; [|apply step_ok_refl].
  destruct (isEVM c).
  - destruct (exchange_cancelOrder env orderId) as [|hash logs]; [apply step_ok_refl|].
    cbn [fst]. destruct (Map_get (orders c) orderId) as [order|] eqn:Ho;
      [|apply step_ok_refl].
    apply step_ok_orders, grows_set1. intros Hk.
    rewrite prop_insert_ne by done. exact (Hk _ _ Ho).
  - destruct (isSolana c); apply step_ok_refl.
Qed.

Lemma updatePositionLeverage_step positionId newLeverage env c :
  step_ok c (updatePositionLeverage positionId newLeverage env c).1.
Proof.
  unfold updatePositionLeverage. destruct (wallet c) as [w|]; [|apply step_ok_refl].
  destruct (isEVM c).
  - destruct (margin_updatePositionLeverage env positionId _) as [|hash logs];
      [apply step_ok_refl|].
    cbn [fst]. destruct (Map_get (positions c) positionId) as [position|] eqn:Hp;
      [|apply step_ok_refl].
    apply step_ok_positions, grows_set1. intros Hk.
    rewrite prop_insert_ne by done. exact (Hk _ _ Hp).
  - destruct (isSolana c); apply step_ok_refl.
Qed.

Lemma run_step env (op : Op) c : step_ok c (run env op c).
Proof.
  destruct op; cbn [run];
    auto using handleWebSocketMessage_step, initialize_step, fetchMarkets_step,
      fetchBalances_step, fetchPositions_step, fetchOpenOrders_step, createOrder_step,
      cancelOrder_step, updatePositionLeverage_step.
Qed.

Lemma run_all_step (steps : list (Chain * Op)) c : step_ok c (run_all steps c).
Proof.
  unfold run_all. revert c. induction steps as [|[env op] steps IH]; intros c;
    [apply step_ok_refl|].
  cbn [fold_left fst snd]. eapply step_ok_trans; [apply run_step|apply IH].
Qed.

(** Whatever pushes arrive and whatever reads and writes are made, in any
    order and against any chain, every record of the four maps sits under
    the key it names itself: orders and positions under their [id],
    balances under their [token], markets under their [symbol]. *)
Theorem run_all_well_keyed (steps : list (Chain * Op)) (net : option string)
    (w : option Wallet) :
  well_keyed (run_all steps (new_client net w)).
Proof.
  destruct (run_all_step steps (new_client net w)) as (_ & _ & Ho & Hp & Hb & Hm).
  assert (Hempty : ∀ f, keyed_by f ∅) by (intros f k o; by rewrite lookup_empty).
  repeat split; eapply grows_keyed; eauto.
Qed.

(** No operation of the client removes a record or rebinds the network or
    the wallet: along every run the key sets of the four maps only grow. *)
Theorem run_all_never_deletes (steps : list (Chain * Op)) c :
  let c' := run_all steps c in
  network c' = network c ∧ wallet c' = wallet c ∧
  dom (orders c) ⊆ dom (orders c') ∧ dom (positions c) ⊆ dom (positions c') ∧
  dom (balances c) ⊆ dom (balances c') ∧ dom (markets c) ⊆ dom (markets c').
Proof.
  destruct (run_all_step steps c) as (Hn & Hw & Ho & Hp & Hb & Hm).
  cbv zeta. repeat split; try done; eapply grows_dom; eauto.
Qed.

End Runs.

(** ** More on the writes *)
Section Writes.

Implicit Types (c : Client) (env : Chain) (o : Obj) (k : Val).

Lemma set_orders_twice c (m m' : JSMap) : set_orders m' (set_orders m c) = set_orders m' c.
Proof. reflexivity. Qed.

(** what a [createOrder] that returns an order did *)
Lemma createOrder_returns params now0 now1 env c c' o :
  createOrder params now0 now1 env c = (c', Ok (Some o)) →
  (isEVM c = true ∧
   ∃ orderId hash, o = new_order orderId params now1 hash ∧
                   c' = set_orders (Map_set (orders c) (VStr orderId) o) c) ∨
  (isEVM c = false ∧ c' = c ∧
   prop o "id" = VStr ("solana-" +:+ pretty now1) ∧ prop o "status" = VStr "open").
Proof.
  unfold createOrder. destruct (wallet c) as [w|]; [|done].
  destruct (isEVM c).
  - unfold createOrder_evm.
    destruct (Map_get (markets c) _) as [marketInfo|]; [|done].
    destruct (build_request _ _ _) as [req|]; [|done]. cbn [rbind].
    destruct (exchange_createOrder env req) as [|hash logs]; [done|].
    intros [= <- <-]. left. split; [done|]. by eexists _, _.
  - destruct (isSolana c); [|done]. intros [= <- <-]. right. by repeat split.
Qed.

Lemma prop_new_order orderId params now hash :
  prop (new_order orderId params now hash) "id" = VStr orderId ∧
  prop (new_order orderId params now hash) "status" = VStr "open" ∧
  prop (new_order orderId params now hash) "filled" = VStr "0".
Proof. by repeat split. Qed.

(** A [createOrder] that returns an order returns it with status "open".
    On an EVM network the order has filled "0" and is stored under its
    own id, every other order being left as it was; on any other network
    it is not stored at all.  The positions, balances and markets maps
    never change. *)
Theorem createOrder_stores_returned_order params now0 now1 env c c' o :
  createOrder params now0 now1 env c = (c', Ok (Some o)) →
  prop o "status" = VStr "open" ∧
  positions c' = positions c ∧ balances c' = balances c ∧ markets c' = markets c ∧
  (isEVM c = true →
   prop o "filled" = VStr "0" ∧
   Map_get (orders c') (prop o "id") = Some o ∧
   ∀ k, mapKey k ≠ mapKey (prop o "id") → Map_get (orders c') k = Map_get (orders c) k) ∧
  (isEVM c = false → c' = c).
Proof.
  intros Hret.
  destruct (createOrder_returns _ _ _ _ _ _ _ Hret)
    as [(Hevm & orderId & hash & -> & ->)|(Hevm & -> & Hid & Hstatus)].
  - destruct (prop_new_order orderId params now1 hash) as (Hid & Hstatus & Hfilled).
    rewrite Hid. split; [done|]. do 3 (split; [done|]). split; [|congruence].
    intros _. split; [done|]. split; [apply Map_get_set_eq|].
    intros k Hk. by apply Map_get_set_ne.
  - split; [done|]. do 3 (split; [done|]). split; [congruence|done].
Qed.

Lemma createOrder_stores_returned_order_witness :
  let r := createOrder Scenario.paramsB 1700000000000 1700000002500
             Scenario.chain_ok Scenario.client0 in
  ∃ o, r.2 = Ok (Some o) ∧ Map_get (orders r.1) (prop o "id") = Some o.
Proof.
  cbv zeta. eexists. split; [reflexivity|].
  eapply (createOrder_stores_returned_order Scenario.paramsB 1700000000000 1700000002500
            Scenario.chain_ok Scenario.client0); reflexivity.
Defined.



(** A write that throws has changed nothing: after a failed [createOrder],
    [cancelOrder] or [updatePositionLeverage] the client state is the one
    before the call, and the message is "Wallet not connected" or the
    failure's message behind the function's own prefix. *)
Theorem failed_write_changes_nothing env c :
  (∀ params now0 now1 message,
     (createOrder params now0 now1 env c).2 = Throw message →
     (createOrder params now0 now1 env c).1 = c ∧
     (message = "Wallet not connected" ∨
      ∃ cause, message = "Failed to create order: " +:+ cause)) ∧
  (∀ orderId message,
     (cancelOrder orderId env c).2 = Throw message →
     (cancelOrder orderId env c).1 = c ∧
     (message = "Wallet not connected" ∨
      ∃ cause, message = "Failed to cancel order: " +:+ cause)) ∧
  (∀ positionId newLeverage message,
     (updatePositionLeverage positionId newLeverage env c).2 = Throw message →
     (updatePositionLeverage positionId newLeverage env c).1 = c ∧
     (message = "Wallet not connected" ∨
      ∃ cause, message = "Failed to update leverage: " +:+ cause)).
Proof.
  split; [|split].
  - intros params now0 now1 message. unfold createOrder.
    destruct (wallet c) as [w|]; [|intros [= <-]; by split; [|left]].
    destruct (isEVM c).
    + destruct (createOrder_evm _ _ _ _ _) as [[c' o]|cause]; [done|].
      intros [= <-]. split; [done|]. right. by eexists.
    + by destruct (isSolana c).
  - intros orderId message. unfold cancelOrder.
    destruct (wallet c) as [w|]; [|intros [= <-]; by split; [|left]].
    destruct (isEVM c).
    + destruct (exchange_cancelOrder env orderId) as [cause|hash logs]; [|done].
      intros [= <-]. split; [done|]. right. by eexists.
    + by destruct (isSolana c).
  - intros positionId newLeverage message. unfold updatePositionLeverage.
    destruct (wallet c) as [w|]; [|intros [= <-]; by split; [|left]].
    destruct (isEVM c).
    + destruct (margin_updatePositionLeverage env positionId _) as [cause|hash logs]; [|done].
      intros [= <-]. split; [done|]. right. by eexists.
    + by destruct (isSolana c).
Qed.

Lemma failed_write_changes_nothing_witness :
  (createOrder Scenario.paramsB 1700000000000 1700000002500
     Scenario.chain_down Scenario.client0).1 = Scenario.client0 ∧
  (cancelOrder (VStr "42") Scenario.chain_down Scenario.c_open).1 = Scenario.c_open ∧
  (updatePositionLeverage (VStr "9") (of_Z 3) Scenario.chain_down Scenario.c_position).1
  = Scenario.c_position.
Proof.
  destruct (failed_write_changes_nothing Scenario.chain_down Scenario.client0)
    as (Hcreate & _ & _).
  destruct (failed_write_changes_nothing Scenario.chain_down Scenario.c_open)
    as (_ & Hcancel & _).
  destruct (failed_write_changes_nothing Scenario.chain_down Scenario.c_position)
    as (_ & _ & Hlev).
  split; [|split].
  - eapply Hcreate. reflexivity.
  - eapply Hcancel. reflexivity.
  - eapply Hlev. reflexivity.
Defined.

(** Cancelling an order again after a cancellation that went through
    changes nothing more: the state after the second successful
    [cancelOrder] is the state after the first. *)
Theorem cancelOrder_twice orderId env1 env2 c c1 c2 r1 r2 :
  cancelOrder orderId env1 c = (c1, Ok r1) →
  cancelOrder orderId env2 c1 = (c2, Ok r2) →
  c2 = c1.
Proof.
  unfold cancelOrder.
  destruct (wallet c) as [w|] eqn:Hw; [|done].
  destruct (isEVM c) eqn:Hevm.
  - destruct (exchange_cancelOrder env1 orderId) as [|hash1 logs1]; [done|].
    destruct (Map_get (orders c) orderId) as [order|] eqn:Ho.
    + intros [= <- <-]. cbn [wallet set_orders orders]. rewrite Hw.
      replace (isEVM (set_orders _ c)) with true by (by rewrite <- Hevm).
      destruct (exchange_cancelOrder env2 orderId) as [|hash2 logs2]; [done|].
      rewrite Map_get_set_eq. intros [= <- <-].
      rewrite insert_insert_eq, set_orders_twice. by rewrite Map_set_twice.
    + intros [= <- <-]. rewrite Hw, Hevm, Ho.
      by destruct (exchange_cancelOrder env2 orderId); intros [= <- <-].
  - intros H1. assert (c1 = c) as -> by (destruct (isSolana c); congruence).
    rewrite Hw, Hevm. destruct (isSolana c); congruence.
Qed.

Lemma cancelOrder_twice_witness :
  (cancelOrder (VStr "42") Scenario.chain_no_event
     (cancelOrder (VStr "42") Scenario.chain_ok Scenario.c_open).1).1
  = (cancelOrder (VStr "42") Scenario.chain_ok Scenario.c_open).1.
Proof.
  eapply (cancelOrder_twice (VStr "42") Scenario.chain_ok Scenario.chain_no_event
            Scenario.c_open); reflexivity.
Defined.

(** For a position id present in the positions map, an
    [updatePositionLeverage] that does not throw leaves every field of
    that position other than [leverage] as it was and, on an EVM network,
    stores the requested leverage as given; for an id that is absent it
    stores nothing.  Every other position and the other three maps are
    unchanged. *)
Theorem updatePositionLeverage_changes_only_leverage positionId newLeverage env c c' r :
  updatePositionLeverage positionId newLeverage env c = (c', Ok r) →
  (∀ position, Map_get (positions c) positionId = Some position →
     ∃ position', Map_get (positions c') positionId = Some position' ∧
       (∀ f, f ≠ "leverage" → position' !! f = position !! f) ∧
       (isEVM c = true → position' !! "leverage" = Some (VNum newLeverage))) ∧
  (Map_get (positions c) positionId = None → c' = c) ∧
  (∀ k, mapKey k ≠ mapKey positionId →
     Map_get (positions c') k = Map_get (positions c) k) ∧
  orders c' = orders c ∧ balances c' = balances c ∧ markets c' = markets c.
Proof.
  unfold updatePositionLeverage.
  destruct (wallet c) as [w|] eqn:Hw; [|done].
  destruct (isEVM c) eqn:Hevm.
  - destruct (margin_updatePositionLeverage env positionId _) as [|hash logs]; [done|].
    destruct (Map_get (positions c) positionId) as [position|] eqn:Hp;
      intros [= <- <-].
    + split; [|split; [done|split; [|done]]].
      * intros ? [= <-]. eexists. split; [apply Map_get_set_eq|].
        split; [|by rewrite lookup_insert_eq].
        intros f Hf. by rewrite lookup_insert_ne.
      * intros k Hk. by apply Map_get_set_ne.
    + by repeat split.
  - intros Hc. assert (c' = c) as -> by (destruct (isSolana c); congruence).
    split; [|done]. intros position Hp. exists position. by repeat split.
Qed.

Lemma updatePositionLeverage_changes_only_leverage_witness :
  let c' := (updatePositionLeverage (VStr "9") (of_Z 3) Scenario.chain_ok
               Scenario.c_position).1 in
  ∃ position', Map_get (positions c') (VStr "9") = Some position' ∧
    (∀ f, f ≠ "leverage" → position' !! f = Scenario.position9 !! f) ∧
    (isEVM Scenario.c_position = true → position' !! "leverage" = Some (VNum (of_Z 3))).
Proof.
  cbv zeta.
  eapply (updatePositionLeverage_changes_only_leverage (VStr "9") (of_Z 3)
            Scenario.chain_ok Scenario.c_position); reflexivity.
Defined.

End Writes.

(** ** More on the reads *)
Section Reads.

Implicit Types (c : Client) (env : Chain) (m : JSMap) (k : Val).

(** After a successful [fetchMarkets] a symbol holds the last market of the
    response that carries it, and a symbol that the response does not
    mention keeps the record it had: a refresh never drops a market. *)
Theorem fetchMarkets_last_in_response_wins env c (ms : list Obj) k :
  http_markets env = Ok ms →
  Map_get (markets (fetchMarkets env c).1) k
  = match list_find (λ market, mapKey (prop market "symbol") = mapKey k) (reverse ms) with
    | Some (_, market) => Some market
    | None => Map_get (markets c) k
    end.
Proof.
  intros Hms. unfold fetchMarkets. rewrite Hms. cbn [fst markets set_markets].
  clear Hms. generalize (markets c) as m.
  induction ms as [|market ms IH] using rev_ind; intros m; [done|].
  rewrite fold_left_app, reverse_snoc. cbn [fold_left list_find].
  case_decide as Hk.
  - unfold Map_get, Map_set. rewrite Hk. apply lookup_insert_eq.
  - rewrite Map_get_set_ne by done. rewrite IH.
    by destruct (list_find _ (reverse ms)) as [[? ?]|].
Qed.

Lemma fetchMarkets_last_in_response_wins_witness :
  Map_get (markets (fetchMarkets Scenario.chain_ok (new_client None None)).1)
    (VStr "ETH-USDC")
  = Some Scenario.eth_usdc.
Proof.
  rewrite (fetchMarkets_last_in_response_wins Scenario.chain_ok (new_client None None)
             [Scenario.eth_usdc] (VStr "ETH-USDC")); reflexivity.
Defined.

Lemma store_orders_app (os1 os2 : list RawOrder) m :
  Forall (λ raw, is_ok (order_record raw) = true) os1 →
  store_orders (os1 ++ os2)%list m = store_orders os2 (store_orders os1 m).1.
Proof.
  intros Hall. revert m. induction Hall as [|raw os1 Hraw _ IH]; intros m; [done|].
  cbn [app store_orders]. destruct (order_record raw); [apply IH|done].
Qed.

Lemma store_orders_stored (os : list RawOrder) m raw :
  Forall (λ raw, is_ok (order_record raw) = true) os → raw ∈ os →
  is_Some (Map_get (store_orders os m).1 (ord_id raw)).
Proof.
  intros Hall. revert m. induction Hall as [|raw' os Hraw' _ IH]; intros m Hin;
    [by apply elem_of_nil in Hin|].
  cbn [store_orders]. destruct (order_record raw') as [o|] eqn:Ho; [|done].
  apply elem_of_cons in Hin as [->|Hin]; [|by apply IH].
  unfold Map_get. apply elem_of_dom.
  apply (grows_dom "id" _ _ (store_orders_grows os _)).
  unfold Map_set. rewrite dom_insert. set_solver.
Qed.

(** When the record of one fetched order cannot be built (its timestamp
    does not fit a Number), [fetchOpenOrders] returns the empty list, yet
    the orders that precede it in the response have been stored and the
    ones that follow it have not been looked at. *)
Theorem fetchOpenOrders_stores_prefix_before_failure
    env c (w : Wallet) (a : string) (os1 os2 : list RawOrder) (bad : RawOrder) :
  wallet c = Some w → isEVM c = true → getAddress w = Ok a →
  exchange_getUserOrders env a = Ok (os1 ++ bad :: os2)%list →
  Forall (λ raw, is_ok (order_record raw) = true) os1 →
  2 ^ 53 ≤ Z.abs (ord_timestamp bad) →
  (fetchOpenOrders env c).2 = [] ∧
  orders (fetchOpenOrders env c).1 = (store_orders os1 (orders c)).1 ∧
  ∀ raw, raw ∈ os1 → is_Some (Map_get (orders (fetchOpenOrders env c).1) (ord_id raw)).
Proof.
  intros Hw Hevm Ha Hos Hall Hbad.
  assert (Hthrow : order_record bad = Throw "overflow").
  { unfold order_record, toNumber. by destruct (Z.ltb_spec (Z.abs (ord_timestamp bad)) (2 ^ 53)); [lia|]. }
  unfold fetchOpenOrders. rewrite Hw, Hevm, Ha, Hos, store_orders_app by done.
  cbn [store_orders]. rewrite Hthrow.
  destruct (store_orders os1 (orders c)) as [m completed] eqn:Hstore. cbn [fst snd].
  split; [done|]. split; [done|].
  intros raw Hin. cbn [orders set_orders].
  pose proof (store_orders_stored os1 (orders c) raw Hall Hin) as Hsome.
  by rewrite Hstore in Hsome.
Qed.

Lemma fetchOpenOrders_stores_prefix_before_failure_witness :
  (fetchOpenOrders Scenario.chain_bad_order Scenario.client0).2 = [] ∧
  is_Some (Map_get (orders (fetchOpenOrders Scenario.chain_bad_order Scenario.client0).1)
             (VStr "7")).
Proof.
  destruct (fetchOpenOrders_stores_prefix_before_failure Scenario.chain_bad_order
              Scenario.client0 Scenario.demo_wallet "0xabc" [Scenario.raw_order7]
              [Scenario.raw_order7] Scenario.raw_order8)
    as (Hempty & _ & Hstored);
    [reflexivity|reflexivity|reflexivity|reflexivity| |vm_compute; discriminate|].
  - by repeat constructor.
  - split; [exact Hempty|]. apply (Hstored Scenario.raw_order7). by left.
Defined.

(** For a query whose limit and time bounds are integers that a Number
    holds exactly: [getHistoricalTrades] throws "Wallet not connected"
    when no wallet is bound; with a wallet it never throws and answers the
    empty list when the address or the endpoint fails.  The query always
    carries the address and the limit, 50 unless given, and a [from] or
    [to] of 0 is left out like an absent one. *)
Theorem getHistoricalTrades_failures_and_query
    (q : TradeQuery) (http : list (string * string) → Result (list Obj)) c :
  safe_query q →
  (wallet c = None → getHistoricalTrades q http c = Throw "Wallet not connected") ∧
  (wallet c ≠ None → is_ok (getHistoricalTrades q http c) = true) ∧
  (∀ w, wallet c = Some w → is_ok (getAddress w) = false →
        getHistoricalTrades q http c = Ok []) ∧
  (∀ w a, wallet c = Some w → getAddress w = Ok a →
          is_ok (http (trade_query_params a q)) = false →
          getHistoricalTrades q http c = Ok []) ∧
  (∀ a, ∃ rest, trade_query_params a q
                = ("address", a) :: ("limit", pretty (default 50 (q_limit q))) :: rest) ∧
  (∀ a, trade_query_params a q
        = trade_query_params a
            {| q_market := q_market q; q_limit := q_limit q;
               q_from := if decide (q_from q = Some 0) then None else q_from q;
               q_to := if decide (q_to q = Some 0) then None else q_to q |}).
Proof.
  intros _. unfold getHistoricalTrades. repeat split.
  - by intros ->.
  - intros Hw. destruct (wallet c) as [w|]; [|done].
    destruct (getAddress w) as [a|]; [|done]. by destruct (http _).
  - intros w -> Ha. by destruct (getAddress w).
  - intros w a -> -> Hq. by destruct (http _).
  - intros a. by eexists.
  - intros a. unfold trade_query_params. cbn [q_market q_limit q_from q_to].
    destruct (q_from q) as [[| |]|], (q_to q) as [[| |]|]; by repeat case_decide.
Qed.

Lemma getHistoricalTrades_failures_and_query_witness :
  safe_query Scenario.trades_since ∧
  getHistoricalTrades Scenario.trades_since Scenario.trades_echo Scenario.client_no_wallet
  = Throw "Wallet not connected" ∧
  is_ok (getHistoricalTrades Scenario.trades_since Scenario.trades_echo Scenario.client0)
  = true.
Proof.
  assert (Hsafe : safe_query Scenario.trades_since).
  { repeat split; intros z [= <-]; reflexivity. }
  split; [exact Hsafe|]. split.
  - by apply (getHistoricalTrades_failures_and_query _ Scenario.trades_echo
                Scenario.client_no_wallet Hsafe).
  - by apply (getHistoricalTrades_failures_and_query _ Scenario.trades_echo
                Scenario.client0 Hsafe).
Defined.

(** On a network that is not one of the four EVM networks nothing is read
    from or written to a chain: with a wallet bound, the three wallet-bound
    reads return the cached records and the three writes return without
    throwing, all of them leaving the client state as it was, whatever the
    chain would answer. *)
Theorem non_evm_network_never_touches_state env c :
  isEVM c = false → wallet c ≠ None →
  fetchBalances env c = (c, Map_values (balances c)) ∧
  fetchPositions env c = (c, Map_values (positions c)) ∧
  fetchOpenOrders env c = (c, Map_values (orders c)) ∧
  (∀ params now0 now1,
     (createOrder params now0 now1 env c).1 = c ∧
     is_ok (createOrder params now0 now1 env c).2 = true) ∧
  (∀ orderId,
     (cancelOrder orderId env c).1 = c ∧ is_ok (cancelOrder orderId env c).2 = true) ∧
  (∀ positionId newLeverage,
     (updatePositionLeverage positionId newLeverage env c).1 = c ∧
     is_ok (updatePositionLeverage positionId newLeverage env c).2 = true).
Proof.
  intros Hevm Hw.
  unfold fetchBalances, fetchPositions, fetchOpenOrders, createOrder, cancelOrder,
    updatePositionLeverage.
  destruct (wallet c) as [w|]; [|done]. rewrite Hevm.
  repeat split; by destruct (isSolana c).
Qed.

Lemma non_evm_network_never_touches_state_witness :
  (createOrder Scenario.paramsB 1700000000000 1700000002500 Scenario.chain_ok
     Scenario.client_solana).1 = Scenario.client_solana ∧
  fetchOpenOrders Scenario.chain_ok Scenario.client_solana
  = (Scenario.client_solana, Map_values (orders Scenario.client_solana)).
Proof.
  destruct (non_evm_network_never_touches_state Scenario.chain_ok Scenario.client_solana)
    as (_ & _ & Hfetch & Hcreate & _); [reflexivity|done|].
  split; [apply Hcreate|apply Hfetch].
Defined.

(** Whatever codes the exchange reports, a fetched order is stored with a
    side that is "buy" or "sell", a type that is one of the five type
    names or "unknown", and a status that is one of the five status names
    or "unknown"; its [id] is the reported id. *)
Theorem order_record_canonical (raw : RawOrder) (o : Obj) :
  order_record raw = Ok o →
  prop o "id" = ord_id raw ∧
  prop o "side" ∈ [VStr "buy"; VStr "sell"] ∧
  prop o "type" ∈ VStr <$> (typeNames ++ ["unknown"])%list ∧
  prop o "status" ∈ VStr <$> (statusNames ++ ["unknown"])%list.
Proof.
  unfold order_record. destruct (toNumber (ord_timestamp raw)) as [ts|]; [|done].
  cbn [rbind]. intros [= <-].
  assert (Hidx : ∀ (names : list string) i,
            default "unknown" (index names i) ∈ (names ++ ["unknown"])%list).
  { intros names i. destruct (index names i) as [name|] eqn:Hi; cbn [default].
    - unfold index in Hi. destruct (0 <=? i); [|done].
      apply elem_of_app. left. by eapply list_elem_of_lookup_2.
    - apply elem_of_app. right. by left. }
  split; [reflexivity|]. split; [|split].
  - change (prop _ "side") with (VStr (if ord_side raw =? 0 then "buy" else "sell")).
    destruct (ord_side raw =? 0); set_solver.
  - change (prop _ "type") with (VStr (getOrderTypeName (ord_orderType raw))).
    apply list_elem_of_fmap_2, Hidx.
  - change (prop _ "status") with (VStr (getOrderStatusName (ord_status raw))).
    apply list_elem_of_fmap_2, Hidx.
Qed.

Lemma order_record_canonical_witness :
  ∃ o, order_record Scenario.raw_order7 = Ok o ∧ prop o "side" ∈ [VStr "buy"; VStr "sell"].
Proof.
  eexists. split; [reflexivity|].
  eapply (order_record_canonical Scenario.raw_order7). reflexivity.
Defined.

(** Bootstrap without a wallet loads the markets and nothing else: the
    markets map is what [fetchMarkets] makes of it, and the positions,
    orders and balances maps stay as they were. *)
Theorem initialize_without_wallet env c :
  wallet c = None →
  initialize env c = (fetchMarkets env c).1.
Proof.
  intros Hw. unfold initialize.
  assert (Hw' : wallet (fetchMarkets env c).1 = None).
  { unfold fetchMarkets. by destruct (http_markets env). }
  unfold fetchBalances at 1. rewrite Hw'. cbn [fst].
  unfold fetchPositions at 1. rewrite Hw'. cbn [fst].
  unfold fetchOpenOrders. by rewrite Hw'.
Qed.

Lemma initialize_without_wallet_witness :
  initialize Scenario.chain_ok Scenario.client_no_wallet
  = (fetchMarkets Scenario.chain_ok Scenario.client_no_wallet).1.
Proof. apply (initialize_without_wallet Scenario.chain_ok Scenario.client_no_wallet). done. Defined.

End Reads.

(** ** Encoding a whole leverage *)
Section WholeLeverage.

Lemma encode_whole_leverage_pos (L : Z) :
  0 < L → 100 * L < 2 ^ 52 →
  Math_round (mul (of_Z L) (of_Z 100)) = of_Z (100 * L).
Proof.
  intros HL Hbound.
  change (2 ^ 52) with 4503599627370496 in Hbound.
  destruct (of_Z_exact L) as (ma & k & Hk & -> & Hma & Hman).
  { change (2 ^ 53) with 9007199254740992. lia. }
  change (2 ^ 52) with 4503599627370496 in Hman.
  change (2 ^ 53) with 9007199254740992 in Hman.
  assert (Hk7 : 7 ≤ k).
  { destruct (Z.le_gt_cases 7 k) as [|Hlt]; [done|].
    assert (2 ^ k ≤ 2 ^ 6) by (apply Z.pow_le_mono_r; lia).
    assert (L * 2 ^ k ≤ L * 2 ^ 6) by (apply Z.mul_le_mono_nonneg_l; lia).
    change (2 ^ 6) with 64 in *. lia. }
  destruct (Z.lt_ge_cases (Z.pos ma * 7036874417766400)
              40564819207303340847894502572032) as [Hsmall|Hlarge].
  - (* the product has 105 bits *)
    set (j := k - 6).
    assert (Hpow : 2 ^ k = 2 ^ j * 64).
    { replace k with (j + 6) by (unfold j; lia).
      rewrite Z.pow_add_r by (unfold j; lia). done. }
    rewrite Hpow in Hma. set (W := L * 2 ^ j).
    assert (HW : Z.pos ma = 64 * W) by (unfold W; lia).
    destruct (mul_100_spec ma (- k) 52) as (mr & Hmr & Herr & ->); [|done|lia|].
    { apply digits2_pos_unique. rewrite Pos2Z.inj_mul.
      change (2 ^ (53 + 52 - 1)) with 20282409603651670423947251286016.
      change (2 ^ (53 + 52)) with 40564819207303340847894502572032. lia. }
    change (2 ^ 52) with 4503599627370496 in *.
    change (2 ^ 53) with 9007199254740992 in *.
    assert (mr = 100 * W) as -> by lia.
    destruct (Z.ltb_spec (100 * W) 9007199254740992); [|lia].
    replace (- k - 46 + 52) with (- j) by (unfold j; lia).
    destruct (100 * W) as [|pr|pr] eqn:HpW; [lia| |lia]. cbn [Z.to_pos].
    apply Math_round_near; [unfold j; lia|].
    rewrite <- HpW. unfold W.
    replace (100 * (L * 2 ^ j) - 100 * L * 2 ^ j) with 0 by ring.
    assert (0 < 2 ^ j) by (apply Z.pow_pos_nonneg; unfold j; lia). lia.
  - (* the product has 106 bits *)
    assert (Hk8 : 8 ≤ k).
    { destruct (Z.eq_dec k 7) as [->|]; [|lia]. change (2 ^ 7) with 128 in Hma. lia. }
    set (j := k - 7).
    assert (Hpow : 2 ^ k = 2 ^ j * 128).
    { replace k with (j + 7) by (unfold j; lia).
      rewrite Z.pow_add_r by (unfold j; lia). done. }
    rewrite Hpow in Hma. set (W := L * 2 ^ j).
    assert (HW : Z.pos ma = 128 * W) by (unfold W; lia).
    destruct (mul_100_spec ma (- k) 53) as (mr & Hmr & Herr & ->); [|done|lia|].
    { apply digits2_pos_unique. rewrite Pos2Z.inj_mul.
      change (2 ^ (53 + 53 - 1)) with 40564819207303340847894502572032.
      change (2 ^ (53 + 53)) with 81129638414606681695789005144064. lia. }
    change (2 ^ 52) with 4503599627370496 in *.
    change (2 ^ 53) with 9007199254740992 in *.
    assert (mr = 100 * W) as -> by lia.
    destruct (Z.ltb_spec (100 * W) 9007199254740992); [|lia].
    replace (- k - 46 + 53) with (- j) by (unfold j; lia).
    destruct (100 * W) as [|pr|pr] eqn:HpW; [lia| |lia]. cbn [Z.to_pos].
    apply Math_round_near; [unfold j; lia|].
    rewrite <- HpW. unfold W.
    replace (100 * (L * 2 ^ j) - 100 * L * 2 ^ j) with 0 by ring.
    assert (0 < 2 ^ j) by (apply Z.pow_pos_nonneg; unfold j; lia). lia.
Qed.

Lemma encode_whole_leverage (L : Z) :
  0 ≤ L → 100 * L < 2 ^ 52 →
  Math_round (mul (of_Z L) (of_Z 100)) = of_Z (100 * L).
Proof.
  intros HL Hbound. destruct (Z.eq_dec L 0) as [->|]; [reflexivity|].
  apply encode_whole_leverage_pos; [lia|done].
Qed.

(** The leverage in the request that [createOrder] hands to the exchange
    is exactly 100 times a whole-number leverage [L] with [100 * L] below
    2^52, and exactly 100 when no leverage is given. *)
Theorem build_request_whole_leverage (params : OrderParams) (marketInfo : Obj)
    (clientOrderId : string) (req : OrderRequest) (L : Z) :
  build_request params marketInfo clientOrderId = Ok req →
  (p_leverage params = Some (of_Z L) ∧ 0 ≤ L ∧ 100 * L < 2 ^ 52) ∨
  (p_leverage params = None ∧ L = 1) →
  req_leverage req = of_Z (100 * L).
Proof.
  unfold build_request.
  destruct (ethers.parseUnits (p_price params) 8); [|done].
  destruct (ethers.parseUnits (p_amount params) 18); [|done]. cbn [rbind].
  destruct (if truthy (p_stopPrice params) then _ else _); [|done]. cbn [rbind].
  intros [= <-] [(-> & HL & Hbound)|(-> & ->)]; cbn [req_leverage default].
  - by apply encode_whole_leverage.
  - reflexivity.
Qed.

Lemma build_request_whole_leverage_witness :
  req_leverage (Scenario.requestB Scenario.eth_usdc "1700000000000") = of_Z (100 * 1).
Proof.
  apply (build_request_whole_leverage Scenario.paramsB Scenario.eth_usdc "1700000000000"
           (Scenario.requestB Scenario.eth_usdc "1700000000000") 1); [reflexivity|].
  right. by split.
Defined.

End WholeLeverage.

(** ** Decimal strings round-trip *)
Section Decimals.

Import ethers.

Implicit Types (l : list ascii) (c : ascii) (d : nat).

Lemma fold_digits l (acc : Z) :
  fold_left (λ acc c, 10 * acc + digit_val c) l acc
  = acc * 10 ^ Z.of_nat (length l) + digits_val l.
Proof.
  unfold digits_val. revert acc.
  induction l as [|c l IH]; intros acc; cbn [fold_left length].
  - rewrite Z.pow_0_r. lia.
  - rewrite IH, (IH (10 * 0 + digit_val c)).
    rewrite Nat2Z.inj_succ, Z.pow_succ_r by lia. ring.
Qed.

Lemma digits_val_app l1 l2 :
  digits_val (l1 ++ l2) = digits_val l1 * 10 ^ Z.of_nat (length l2) + digits_val l2.
Proof.
  unfold digits_val at 1. by rewrite fold_left_app, fold_digits.
Qed.

Lemma digits_val_zeros n : digits_val (repeat zero n) = 0.
Proof.
  induction n as [|n IH]; [done|].
  change (repeat zero (S n)) with ([zero] ++ repeat zero n)%list.
  rewrite digits_val_app, IH. reflexivity.
Qed.

Lemma pretty_N_char_digit (r : N) :
  (r < 10)%N → is_digit (pretty_N_char r) = true ∧ digit_val (pretty_N_char r) = Z.of_N r.
Proof.
  intros Hr.
  assert (r = 0 ∨ r = 1 ∨ r = 2 ∨ r = 3 ∨ r = 4 ∨ r = 5 ∨ r = 6 ∨ r = 7 ∨ r = 8 ∨ r = 9)%N
    as Hcases by lia.
  repeat (destruct Hcases as [->|Hcases]; [by vm_compute|]). subst. by vm_compute.
Qed.

Lemma is_digit_not_sep c : is_digit c = true → Ascii.eqb c dot = false ∧ Ascii.eqb c minus = false.
Proof.
  destruct c as [[] [] [] [] [] [] [] []]; vm_compute; by (intros; split) || discriminate.
Qed.

(** the digits that [pretty] writes for a natural number *)
Lemma pretty_N_go_digits (x : N) : ∀ s,
  ∃ px, list_ascii_of_string (pretty_N_go x s) = (px ++ list_ascii_of_string s)%list ∧
        forallb is_digit px = true ∧ digits_val px = Z.of_N x ∧
        (x = 0%N → px = []) ∧ (x ≠ 0%N → px ≠ []) ∧
        (∀ n : nat, Z.of_N x < 10 ^ Z.of_nat n → (length px ≤ n)%nat).
Proof.
  induction (N.lt_wf_0 x) as [x _ IH]. intros s.
  destruct (N.eq_dec x 0%N) as [->|Hx].
  - exists []. rewrite pretty_N_go_0. repeat split; try done. intros; simpl; lia.
  - rewrite pretty_N_go_step by lia.
    destruct (IH (x `div` 10)%N ltac:(apply N.div_lt; lia)
                (String (pretty_N_char (x `mod` 10)) s))
      as (px & Hpx & Hdig & Hval & Hzero & _ & Hlen).
    destruct (pretty_N_char_digit (x `mod` 10)%N) as [Hcd Hcv];
      [apply N.mod_lt; lia|].
    exists (px ++ [pretty_N_char (x `mod` 10)%N])%list.
    split; [by rewrite Hpx, <- app_assoc|].
    split; [rewrite forallb_app, Hdig; cbn; by rewrite Hcd|].
    split.
    { rewrite digits_val_app, Hval. cbn [length]. unfold digits_val. cbn [fold_left].
      rewrite Hcv. change (10 ^ Z.of_nat 1) with 10.
      rewrite (N.div_mod x 10) at 3 by lia. lia. }
    split; [done|]. split; [by destruct px|].
    intros n Hn. rewrite length_app. cbn [length].
    destruct n as [|n]; [rewrite Z.pow_0_r in Hn; lia|].
    assert (length px ≤ n)%nat; [|lia].
    apply Hlen. rewrite Nat2Z.inj_succ, Z.pow_succ_r in Hn by lia.
    rewrite N2Z.inj_div. apply Z.div_lt_upper_bound; lia.
Qed.

Lemma pretty_Z_digits (z : Z) :
  0 ≤ z →
  ∃ px, list_ascii_of_string (pretty z) = px ∧ px ≠ [] ∧
        forallb is_digit px = true ∧ digits_val px = z ∧
        (∀ n : nat, (1 ≤ n)%nat → z < 10 ^ Z.of_nat n → (length px ≤ n)%nat).
Proof.
  intros Hz. destruct z as [|p|p]; [| |lia].
  - exists [zero]. by repeat split.
  - destruct (pretty_N_go_digits (N.pos p) "") as (px & Hpx & Hdig & Hval & _ & Hne & Hlen).
    exists px. change (pretty (Z.pos p)) with (pretty_N_go (N.pos p) "").
    rewrite Hpx, app_nil_r. repeat split; try done; [by apply Hne|].
    intros n _ Hn. by apply Hlen.
Qed.

Lemma chars_app (s1 s2 : string) :
  list_ascii_of_string (s1 +:+ s2) = (list_ascii_of_string s1 ++ list_ascii_of_string s2)%list.
Proof. induction s1 as [|c s1 IH]; [done|]. cbn. by rewrite <- IH. Qed.

Lemma split_dots_digits l l' :
  forallb is_digit l = true → split_dots (l ++ dot :: l') = l :: split_dots l'.
Proof.
  induction l as [|c l IH]; intros Hl; [done|].
  cbn in Hl. apply andb_true_iff in Hl as [Hc Hl].
  cbn [app split_dots]. destruct (is_digit_not_sep c Hc) as [-> _]. by rewrite IH.
Qed.

Lemma split_dots_digits_only l : forallb is_digit l = true → split_dots l = [l].
Proof.
  induction l as [|c l IH]; intros Hl; [done|].
  cbn in Hl. apply andb_true_iff in Hl as [Hc Hl].
  cbn [split_dots]. destruct (is_digit_not_sep c Hc) as [-> _]. by rewrite IH.
Qed.

Lemma drop_leading_zeros_spec l :
  ∃ n, l = (repeat zero n ++ drop_leading_zeros l)%list ∧
       drop_leading_zeros (drop_leading_zeros l) = drop_leading_zeros l.
Proof.
  induction l as [|c l (n & Hn & Hidem)]; [by exists 0%nat|].
  cbn [drop_leading_zeros]. destruct (Ascii.eqb_spec c zero) as [->|Hc].
  - exists (S n). split; [cbn; by rewrite <- Hn|done].
  - exists 0%nat. split; [done|]. cbn [drop_leading_zeros].
    by destruct (Ascii.eqb_spec c zero).
Qed.

Lemma repeat_rev {A} (x : A) n : rev (repeat x n) = repeat x n.
Proof.
  induction n as [|n IH]; [done|]. cbn [repeat rev]. rewrite IH.
  change [x] with (repeat x 1). rewrite <- repeat_app.
  by replace (n + 1)%nat with (S n) by lia.
Qed.

Lemma trim_trailing_zeros_spec l :
  ∃ n, l = (trim_trailing_zeros l ++ repeat zero n)%list ∧
       trim_trailing_zeros (trim_trailing_zeros l) = trim_trailing_zeros l.
Proof.
  unfold trim_trailing_zeros.
  destruct (drop_leading_zeros_spec (rev l)) as (n & Hn & Hidem).
  exists n. split.
  - rewrite <- (rev_involutive l), Hn at 1. by rewrite rev_app_distr, repeat_rev.
  - by rewrite rev_involutive, Hidem.
Qed.

Lemma trim_trailing_zeros_zero : trim_trailing_zeros [zero] = [].
Proof. reflexivity. Qed.

Lemma forallb_digit_or_dot l :
  forallb is_digit l = true → forallb (λ c, is_digit c || Ascii.eqb c dot) l = true.
Proof.
  induction l as [|c l IH]; [done|]. cbn. intros [Hc Hl]%andb_true_iff.
  by rewrite Hc, IH.
Qed.

(** what [parseFixed] reads in [whole.fraction], with an optional sign *)
Lemma parseFixed_chars (value : string) (negative : bool) d (W F T : list ascii) :
  list_ascii_of_string value = ((if negative then [minus] else []) ++ W ++ dot :: F)%list →
  W ≠ [] → F ≠ [] → forallb is_digit W = true → forallb is_digit F = true →
  T = trim_trailing_zeros F → (length T ≤ d)%nat →
  parseFixed value d
  = Ok (let wei := digits_val W * 10 ^ Z.of_nat d
                   + digits_val (pad_right d match T with
                                              | [] => [zero]
                                              | f => f
                                              end) in
        if negative then - wei else wei).
Proof.
  intros Hchars HW HF HWd HFd -> Hlen. unfold parseFixed. rewrite Hchars.
  destruct W as [|w W]; [done|]. destruct F as [|f F]; [done|].
  assert (Hw : Ascii.eqb w minus = false).
  { cbn in HWd. apply andb_true_iff in HWd as [Hw _]. by apply is_digit_not_sep. }
  assert (Hneg : match ((if negative then [minus] else []) ++ (w :: W) ++ dot :: f :: F)%list with
                 | c :: _ => Ascii.eqb c minus
                 | [] => false
                 end = negative).
  { destruct negative; [done|]. cbn. exact Hw. }
  rewrite Hneg.
  assert (Hbody : (if negative
                   then tl ((if negative then [minus] else []) ++ (w :: W) ++ dot :: f :: F)%list
                   else ((if negative then [minus] else []) ++ (w :: W) ++ dot :: f :: F)%list)
                  = ((w :: W) ++ dot :: f :: F)%list) by (by destruct negative).
  rewrite Hbody.
  assert (Hall : forallb (λ c, is_digit c || Ascii.eqb c dot) ((w :: W) ++ dot :: f :: F) = true).
  { rewrite forallb_app. rewrite (forallb_digit_or_dot _ HWd). cbn [forallb andb].
    replace (is_digit dot || Ascii.eqb dot dot) with true by done.
    exact (forallb_digit_or_dot _ HFd). }
  rewrite Hall. cbn [negb orb].
  assert (Hl0 : (length ((w :: W) ++ dot :: f :: F) =? 0)%nat = false) by done.
  assert (Hl1 : (length ((w :: W) ++ dot :: f :: F) =? 1)%nat = false).
  { rewrite length_app. cbn [length]. apply Nat.eqb_neq. lia. }
  rewrite Hl0, Hl1. cbn [andb].
  rewrite (split_dots_digits _ _ HWd), (split_dots_digits_only _ HFd).
  cbn [length nth]. change (2 <? 2)%nat with false. cbv iota.
  destruct (Nat.ltb_spec d (length (trim_trailing_zeros (f :: F)))) as [Hgt|_]; [lia|].
  by destruct (trim_trailing_zeros (f :: F)).
Qed.

Lemma pad_right_trimmed l d (T : list ascii) :
  T = trim_trailing_zeros l → length l = d →
  digits_val (pad_right d match T with
                          | [] => [zero]
                          | f => f
                          end) = digits_val l.
Proof.
  intros -> Hlen. destruct (trim_trailing_zeros_spec l) as (n & Hn & _).
  unfold pad_right. destruct (trim_trailing_zeros l) as [|t T] eqn:HT.
  - rewrite app_nil_l in Hn. rewrite Hn, digits_val_app, !digits_val_zeros. reflexivity.
  - transitivity (digits_val ((t :: T) ++ repeat zero n)); [|by rewrite <- Hn].
    do 3 f_equal. apply (f_equal length) in Hn.
    rewrite length_app, repeat_length in Hn. lia.
Qed.

(** Parsing what [formatUnits] wrote gives the integer back. *)
Lemma parseFixed_formatUnits (z : Z) d :
  (1 ≤ d)%nat → parseFixed (formatUnits z d) d = Ok z.
Proof.
  intros Hd. unfold formatUnits.
  destruct (Nat.eqb_spec d 0) as [->|_]; [lia|].
  set (a := Z.abs z). set (mult := 10 ^ Z.of_nat d).
  assert (Hmult : 0 < mult) by (apply Z.pow_pos_nonneg; lia).
  destruct (pretty_Z_digits (a / mult)) as (W & HW & HWne & HWd & HWv & _).
  { apply Z.div_pos; unfold a; lia. }
  destruct (pretty_Z_digits (a mod mult)) as (R & HR & HRne & HRd & HRv & HRlen).
  { apply Z.mod_pos_bound. lia. }
  specialize (HRlen d Hd ltac:(apply Z.mod_pos_bound; lia)).
  rewrite HR. set (frac := pad_left d R).
  assert (Hfraclen : length frac = d).
  { unfold frac, pad_left. rewrite length_app, repeat_length. lia. }
  assert (Hfracd : forallb is_digit frac = true).
  { unfold frac, pad_left. rewrite forallb_app, HRd, andb_true_r.
    apply forallb_forall. by intros c ->%repeat_spec. }
  assert (Hfracv : digits_val frac = a mod mult).
  { unfold frac, pad_left. rewrite digits_val_app, digits_val_zeros, HRv. lia. }
  destruct (trim_trailing_zeros_spec frac) as (n & Hn & Hidem).
  set (T := trim_trailing_zeros frac) in *.
  assert (HTd : forallb is_digit T = true).
  { rewrite Hn, forallb_app in Hfracd. by apply andb_true_iff in Hfracd as [? _]. }
  assert (HTlen : (length T ≤ d)%nat).
  { rewrite <- Hfraclen, Hn at 1. rewrite length_app. lia. }
  set (F := match T with [] => [zero] | f => f end).
  assert (HFne : F ≠ []) by (unfold F; by destruct T).
  assert (HFd : forallb is_digit F = true) by (unfold F; by destruct T).
  assert (HFtrim : trim_trailing_zeros F = T).
  { unfold F. destruct T; [reflexivity|exact Hidem]. }
  assert (HFval : digits_val (pad_right d F) = a mod mult).
  { rewrite <- Hfracv. unfold F. by apply pad_right_trimmed. }
  rewrite (parseFixed_chars _ (z <? 0) d W F T); [..|done|done|done|done|done|done].
  - fold F. rewrite HFval, HWv. cbv zeta.
    rewrite <- (Z.mul_comm mult), <- Z.div_mod by lia.
    f_equal. unfold a. destruct (Z.ltb_spec z 0); lia.
  - unfold F. destruct (z <? 0); rewrite !chars_app, ?HW, list_ascii_of_string_of_list_ascii;
      by destruct T.
Qed.

Lemma decimal_formatUnits (z : Z) : decimal (VStr (formatUnits z 18)) = Some z.
Proof. unfold decimal, parseUnits. by rewrite parseFixed_formatUnits by lia. Qed.

Lemma balance_fields (token : Val) (free locked total : string) :
  let b : Obj := list_to_map [("token", token); ("free", VStr free);
                              ("locked", VStr locked); ("total", VStr total)] in
  prop b "token" = token ∧ prop b "free" = VStr free ∧
  prop b "locked" = VStr locked ∧ prop b "total" = VStr total.
Proof. by repeat split. Qed.

(** The record that [fetchBalances] stores for a token carries the three
    chain amounts exactly (each field reads back as the raw amount), so it
    satisfies [total == free + locked] exactly when the amounts reported by
    the vault do. *)
Theorem balance_record_balanced_iff (token : Val) (b : RawBalance) :
  prop (balance_record token b) "token" = token ∧
  decimal (prop (balance_record token b) "free") = Some (raw_free b) ∧
  decimal (prop (balance_record token b) "locked") = Some (raw_locked b) ∧
  decimal (prop (balance_record token b) "total") = Some (raw_total b) ∧
  (balanced (balance_record token b) = true ↔ raw_total b = raw_free b + raw_locked b).
Proof.
  destruct (balance_fields token (formatUnits (raw_free b) 18)
              (formatUnits (raw_locked b) 18) (formatUnits (raw_total b) 18))
    as (Hk & Hf & Hl & Ht).
  cbv zeta in Hk, Hf, Hl, Ht. unfold balance_record, balanced. rewrite Hf, Hl, Ht, !decimal_formatUnits.
  split; [exact Hk|]. do 3 (split; [done|]). apply Z.eqb_eq.
Qed.

Lemma Ok_inv {A} (a b : A) : Ok a = Ok b → a = b.
Proof. by intros [= ->]. Qed.

Lemma order_fields (id market : Val) (side type price amount filled status : string)
    (timestamp : number) :
  let o : Obj := list_to_map [("id", id); ("market", market); ("side", VStr side);
                              ("type", VStr type); ("price", VStr price);
                              ("amount", VStr amount); ("filled", VStr filled);
                              ("status", VStr status); ("timestamp", VNum timestamp)] in
  prop o "amount" = VStr amount ∧ prop o "filled" = VStr filled ∧
  prop o "price" = VStr price.
Proof. by repeat split. Qed.

(** The amounts of a fetched order are stored exactly: [amount] and
    [filled] read back as the raw 18-decimal integers and [price] as the
    raw 8-decimal integer, so the stored order has [filled <= amount]
    exactly when the exchange reports it so. *)
Theorem order_record_amounts_exact (raw : RawOrder) (o : Obj) :
  order_record raw = Ok o →
  decimal (prop o "amount") = Some (ord_amount raw) ∧
  decimal (prop o "filled") = Some (ord_filled raw) ∧
  parseUnits (prop o "price") 8 = Ok (ord_price raw) ∧
  (le_decimal (prop o "filled") (prop o "amount") = true ↔ ord_filled raw ≤ ord_amount raw).
Proof.
  unfold order_record. destruct (toNumber (ord_timestamp raw)) as [ts|]; [|done].
  cbn [rbind]. intros Ho%Ok_inv.
  destruct (order_fields (ord_id raw) (ord_market raw)
              (if ord_side raw =? 0 then "buy" else "sell")
              (getOrderTypeName (ord_orderType raw))
              (formatUnits (ord_price raw) 8) (formatUnits (ord_amount raw) 18)
              (formatUnits (ord_filled raw) 18) (getOrderStatusName (ord_status raw))
              (mul ts (of_Z 1000))) as (Ha & Hf & Hp).
  cbv zeta in Ha, Hf, Hp. rewrite Ho in Ha, Hf, Hp.
  unfold le_decimal. rewrite Ha, Hf, Hp, !decimal_formatUnits.
  split; [done|]. split; [done|]. split; [|apply Z.leb_le].
  cbn [parseUnits]. by rewrite parseFixed_formatUnits by lia.
Qed.

Lemma order_record_amounts_exact_witness :
  ∃ o, order_record Scenario.raw_order7 = Ok o ∧
       (le_decimal (prop o "filled") (prop o "amount") = true
        ↔ ord_filled Scenario.raw_order7 ≤ ord_amount Scenario.raw_order7).
Proof.
  eexists. split; [reflexivity|].
  exact (proj2 (proj2 (proj2 (order_record_amounts_exact Scenario.raw_order7 _ eq_refl)))).
Defined.

End Decimals.
